(** * Threshold-crossing and cohort aggregation scripts

    A shallow embedding of the three analysis scripts of the repository
    ([1_script.py], [2_script.py], [3_script.py]).  The SQL text that the
    scripts send to the database is embedded as list programs over the
    tables it reads; the Python glue around it is embedded as functions
    that return an [outcome], so that raised exceptions stay visible. *)

From Stdlib Require Import ZArith Lia Uint63 PrimFloat.
From stdpp Require Import base option list sorting gmap strings.

Local Open Scope Z_scope.

(** ** Exceptions and results *)

Inductive exn : Set :=
| ValueError        (* datetime field out of range; pd.concat of nothing *)
| OverflowError     (* datetime + timedelta leaves the supported range;
                       a datetime field that does not fit a C int *)
| IndexError        (* list index out of range *)
| DatabaseError     (* pandas: the SQL engine rejected the statement *)
| ProgrammingError. (* psycopg2: the statement is not valid SQL *)

Inductive outcome (A : Type) : Type :=
| Ok (a : A)
| Raise (e : exn).
Arguments Ok {A} a.
Arguments Raise {A} e.

#[global] Instance outcome_ret : MRet outcome := fun A a => Ok a.
#[global] Instance outcome_bind : MBind outcome := fun A B k m =>
  match m with
  | Ok a => k a
  | Raise e => Raise e
  end.

(** [try: ... except Exception as e: ...; return None] *)
Definition except_none {A} (m : outcome A) : option A :=
  match m with
  | Ok a => Some a
  | Raise _ => None
  end.

(** ** The part of Python's [datetime] the scripts use *)

Module Calendar.

Definition MINYEAR : Z := 1.
Definition MAXYEAR : Z := 9999.
Definition MAXORDINAL : Z := 3652059.

Record datetime : Set := mk_datetime { year : Z; month : Z; day : Z }.

Definition is_leap (y : Z) : bool :=
  (y mod 4 =? 0) && (negb (y mod 100 =? 0) || (y mod 400 =? 0)).

Definition DAYS_IN_MONTH : list Z :=
  [-1; 31; 28; 31; 30; 31; 30; 31; 31; 30; 31; 30; 31].

Definition DAYS_BEFORE_MONTH : list Z :=
  [-1; 0; 31; 59; 90; 120; 151; 181; 212; 243; 273; 304; 334].

Definition table (t : list Z) (m : Z) : Z := nth (Z.to_nat m) t (-1).

Definition days_before_year (y : Z) : Z :=
  let y' := y - 1 in y' * 365 + y' / 4 - y' / 100 + y' / 400.

Definition days_in_month (y m : Z) : Z :=
  if (m =? 2) && is_leap y then 29 else table DAYS_IN_MONTH m.

Definition days_before_month (y m : Z) : Z :=
  table DAYS_BEFORE_MONTH m + (if (2 <? m) && is_leap y then 1 else 0).

Definition ymd2ord (y m d : Z) : Z :=
  days_before_year y + days_before_month y m + d.

Definition DI400Y : Z := 146097.
Definition DI100Y : Z := 36524.
Definition DI4Y : Z := 1461.

Definition ord2ymd (n : Z) : datetime :=
  let n := n - 1 in
  let n400 := n / DI400Y in
  let n := n mod DI400Y in
  let y := n400 * 400 + 1 in
  let n100 := n / DI100Y in
  let n := n mod DI100Y in
  let n4 := n / DI4Y in
  let n := n mod DI4Y in
  let n1 := n / 365 in
  let n := n mod 365 in
  let y := y + n100 * 100 + n4 * 4 + n1 in
  if (n1 =? 4) || (n100 =? 4) then mk_datetime (y - 1) 12 31
  else
    let leapyear := (n1 =? 3) && (negb (n4 =? 24) || (n100 =? 3)) in
    let m := Z.shiftr (n + 50) 5 in
    let preceding :=
      table DAYS_BEFORE_MONTH m + (if (2 <? m) && leapyear then 1 else 0) in
    if n <? preceding then
      let m := m - 1 in
      let preceding :=
        preceding
        - (table DAYS_IN_MONTH m + (if (m =? 2) && leapyear then 1 else 0)) in
      mk_datetime y m (n - preceding + 1)
    else mk_datetime y m (n - preceding + 1).

(** The values of a C [int]: the constructor of [datetime] reads its
    arguments into this type first. *)
Definition INT_MIN : Z := -2147483648.
Definition INT_MAX : Z := 2147483647.

Definition c_int (n : Z) : Prop := INT_MIN ≤ n ≤ INT_MAX.

#[global] Instance c_int_dec n : Decision (c_int n).
Proof. unfold c_int. apply _. Defined.

(** [datetime(year, month, day)]: an argument that does not fit a C
    [int] raises [OverflowError]; then the constructor checks its
    fields. *)
Definition new (y m d : Z) : outcome datetime :=
  if decide (c_int y ∧ c_int m ∧ c_int d) then
    if (MINYEAR <=? y) && (y <=? MAXYEAR) && (1 <=? m) && (m <=? 12)
       && (1 <=? d) && (d <=? days_in_month y m)
    then Ok (mk_datetime y m d)
    else Raise ValueError
  else Raise OverflowError.

Definition toordinal (t : datetime) : Z := ymd2ord (year t) (month t) (day t).

(** [t + timedelta(days=k)] *)
Definition add_days (t : datetime) (k : Z) : outcome datetime :=
  let n := toordinal t + k in
  if (0 <? n) && (n <=? MAXORDINAL) then Ok (ord2ymd n) else Raise OverflowError.

(** Comparison of two values, field by field from the year down. *)
Definition leb (a b : datetime) : bool :=
  (year a <? year b)
  || ((year a =? year b)
      && ((month a <? month b)
          || ((month a =? month b) && (day a <=? day b)))).

(** A calendar day that exists. *)
Definition valid (t : datetime) : Prop :=
  MINYEAR ≤ year t ≤ MAXYEAR ∧ 1 ≤ month t ≤ 12
  ∧ 1 ≤ day t ≤ days_in_month (year t) (month t).

Definition year_of_ordinal (n : Z) : Z := year (ord2ymd n).

(** The same day [k] cycles of 400 years later. *)
Definition shift_years (k : Z) (t : datetime) : datetime :=
  mk_datetime (year t + 400 * k) (month t) (day t).

(** Going 31 days on from the first of a month and back by the day
    reached lands on the last day of the month. *)
Definition month_end (y m : Z) : Prop :=
  toordinal (ord2ymd (ymd2ord y m 1 + 31)) = ymd2ord y m 1 + 31
  ∧ 1 ≤ day (ord2ymd (ymd2ord y m 1 + 31)) ≤ 4
  ∧ day (ord2ymd (ymd2ord y m 1 + 31 - day (ord2ymd (ymd2ord y m 1 + 31))))
    = days_in_month y m.

#[global] Instance month_end_dec y m : Decision (month_end y m).
Proof. unfold month_end. apply _. Defined.

(** The check on every month of one cycle of 400 years. *)
Definition cycle_check : bool :=
  forallb (fun y => forallb (fun m => bool_decide (month_end y m)) (seqZ 1 12))
    (seqZ 1 400).

End Calendar.

(** ** SQL building blocks shared by the three scripts *)

Definition sumZ (l : list Z) : Z := foldr Z.add 0 l.

(** [MIN(..)] and [MAX(..)] over a column without NULLs: NULL on no rows. *)
Definition sql_min (l : list Z) : option Z :=
  match l with
  | [] => None
  | x :: r => Some (foldr Z.min x r)
  end.

Definition sql_max (l : list Z) : option Z :=
  match l with
  | [] => None
  | x :: r => Some (foldr Z.max x r)
  end.

(** [COALESCE(x, v)] *)
Definition coalesce (o : option Z) (v : Z) : Z := default v o.

(** [l LEFT JOIN r ON on]: every match of a left row, or the left row
    alone, padded with NULL, when nothing matches. *)
Definition left_join {A B} (on : A → B → Prop) `{∀ a b, Decision (on a b)}
    (l : list A) (r : list B) : list (A * option B) :=
  a ← l;
  match filter (on a) r with
  | [] => [(a, None)]
  | ms => (fun b => (a, Some b)) <$> ms
  end.

(** Python's [l[i]] for a non-negative index. *)
Definition index {A} (l : list A) (i : nat) : outcome A :=
  match l !! i with
  | Some x => Ok x
  | None => Raise IndexError
  end.

(** ** 1_script.py: activation dates and success dates *)

Module Script1.

(** A row of [conversations].  Dates are day numbers (the ordinal of the
    calendar day), so that [date - INTERVAL '1 day'] is [date - 1]. *)
Record conversation : Set := mk_conversation {
  account_id : Z;
  date : Z;
  total : Z;
  successful : bool
}.

(** A row of [company]. *)
Record company : Set := mk_company {
  id : Z;
  name : string;
  associated_partner : option string
}.

Record database : Set := mk_database {
  conversations : list conversation;
  company_table : list company
}.

(** *** The query of [fetch_companies_from_db] *)

(** Rows of the CTE [daily_conversations]. *)
Record daily : Set := mk_daily {
  dc_account_id : Z;
  dc_date : Z;
  daily_total : Z
}.

Definition daily_conversations (convs : list conversation) : list daily :=
  (fun k : Z * Z =>
     mk_daily k.1 k.2
       (sumZ (total <$> filter (fun r => account_id r = k.1 ∧ date r = k.2) convs)))
  <$> remove_dups ((fun r => (account_id r, date r)) <$> convs).

(** Rows of the CTE [three_day_conversations]. *)
Record three_day : Set := mk_three_day {
  td_account_id : Z;
  td_date : Z;
  total_3_day : Z
}.

Definition joined : Set := (daily * option daily) * option daily.

Definition sum_3_day (j : joined) : Z :=
  daily_total j.1.1
  + coalesce (daily_total <$> j.1.2) 0
  + coalesce (daily_total <$> j.2) 0.

Definition three_day_conversations (convs : list conversation) : list three_day :=
  let dc := daily_conversations convs in
  let dc1_dc2 :=
    left_join (fun dc1 dc2 : daily =>
                 dc_account_id dc1 = dc_account_id dc2
                 ∧ dc_date dc2 = dc_date dc1 - 1) dc dc in
  let dc1_dc2_dc3 : list joined :=
    left_join (fun (j : daily * option daily) (dc3 : daily) =>
                 dc_account_id j.1 = dc_account_id dc3
                 ∧ dc_date dc3 = dc_date j.1 - 2) dc1_dc2 dc in
  (fun j : joined => mk_three_day (dc_account_id j.1.1) (dc_date j.1.1) (sum_3_day j))
  <$> filter (fun j => 350 ≤ sum_3_day j) dc1_dc2_dc3.

(** Rows of the CTE [first_activation]: one per account that has a
    qualifying day. *)
Definition first_activation (convs : list conversation) : list (Z * option Z) :=
  let t := three_day_conversations convs in
  (fun a : Z => (a, sql_min (td_date <$> filter (fun r => td_account_id r = a) t)))
  <$> remove_dups (td_account_id <$> t).

(** Rows of the result, the DataFrame [df_companies]. *)
Record company_row : Set := mk_company_row {
  company_id : Z;
  company_name : string;
  activation_date : option Z
}.

Definition partnered (c : company) : Prop :=
  associated_partner c ≠ None ∧ associated_partner c ≠ Some ""%string.

#[global] Instance partnered_dec c : Decision (partnered c).
Proof. unfold partnered. apply _. Defined.

Definition on_account (c : company) (f : Z * option Z) : Prop := id c = f.1.

#[global] Instance on_account_dec c f : Decision (on_account c f).
Proof. unfold on_account. apply _. Defined.

(** The query has no ORDER BY: the engine may return the rows in any
    order.  They are listed here as a plan that scans [company] in table
    order returns them; what is stated of the frame of companies is
    stated of its rows, not of their order. *)
Definition companies_query (d : database) : list company_row :=
  (fun j : company * option (Z * option Z) =>
     mk_company_row (id j.1) (name j.1) (j.2 ≫= snd))
  <$> filter (fun j : company * option (Z * option Z) => partnered j.1)
        (left_join on_account (company_table d) (first_activation (conversations d))).

Definition fetch_companies_from_db (d : database) : option (list company_row) :=
  except_none (Ok (companies_query d)).

(** *** The query of [fetch_successful_conversations] *)

Definition in_period (cid act fin : Z) (r : conversation) : Prop :=
  account_id r = cid ∧ successful r = true ∧ act ≤ date r ≤ fin.

#[global] Instance in_period_dec cid act fin r : Decision (in_period cid act fin r).
Proof. unfold in_period. apply _. Defined.

Definition by_date (a b : conversation) : Prop := date a ≤ date b.

#[global] Instance by_date_dec a b : Decision (by_date a b).
Proof. unfold by_date. apply _. Defined.

(** [SUM(total) OVER (ORDER BY date ROWS BETWEEN UNBOUNDED PRECEDING AND
    CURRENT ROW)] over rows already in window order. *)
Fixpoint running_total (acc : Z) (l : list conversation) : list (Z * Z) :=
  match l with
  | [] => []
  | r :: l' => (date r, acc + total r) :: running_total (acc + total r) l'
  end.

(** Rows [(date, cum_total)] of the CTE [CumulativeConversations]. *)
Definition CumulativeConversations (convs : list conversation)
    (cid act fin : Z) : list (Z * Z) :=
  running_total 0 (merge_sort by_date (filter (in_period cid act fin) convs)).

Definition crossed (convs : list conversation) (cid act fin : Z) : list (Z * Z) :=
  filter (fun row : Z * Z => 500 ≤ row.2) (CumulativeConversations convs cid act fin).

(** The aggregate query without GROUP BY: exactly one row
    [(success_date, cum_total)].  The day numbers are those of the
    engine, which has no bound near the dates of the scripts; the driver
    hands a date over as a Python [date] and cannot do so for a day
    before 0001-01-01 or after 9999-12-31.  The statements that depend on
    it are made for activation dates within [safe_activation] below. *)
Definition success_query (convs : list conversation) (cid act fin days : Z)
    : option Z * option Z :=
  let rows := crossed convs cid act fin in
  ((fun d => d + days) <$> sql_min (rows.*1), sql_max (rows.*2)).

(** The f-string puts [activation_date] and [end_date] between quotes;
    a missing value is printed as ['None'] or ['NaT'], which the engine
    rejects as a date. *)
Definition read_sql_query (convs : list conversation) (cid : Z)
    (activation_date end_date : option Z) (days : Z)
    : outcome (option Z * option Z) :=
  match activation_date, end_date with
  | Some act, Some fin => Ok (success_query convs cid act fin days)
  | _, _ => Raise DatabaseError
  end.

Definition adjust : list Z := [0; -25; 65; 165].

(** Rows of [df_success_dates]. *)
Record success_row : Set := mk_success_row {
  success_date : option Z;
  cum_total : option Z;
  sr_company_id : Z
}.

(** The body of [for idx, row in df_companies.iterrows()], from row
    number [idx] on.  A missing activation date plus 60 days is missing
    again ([NaT]).  The sum [activation_date + 60 days] is taken within
    the days that a [date] holds: see [safe_activation] below. *)
Fixpoint iterrows (convs : list conversation) (idx : nat)
    (rows : list company_row) (results : list success_row)
    : outcome (list success_row) :=
  match rows with
  | [] => Ok results
  | row :: rest =>
      let end_date := (fun d => d + 60) <$> activation_date row in
      days ← index adjust idx;
      result ← read_sql_query convs (company_id row) (activation_date row) end_date days;
      iterrows convs (S idx) rest
        (results ++ [mk_success_row result.1 result.2 (company_id row)])
  end.

(** [pd.concat] refuses an empty list of frames. *)
Definition pd_concat (results : list success_row) : outcome (list success_row) :=
  match results with
  | [] => Raise ValueError
  | _ => Ok results
  end.

Definition fetch_successful_conversations (df_companies : list company_row)
    (convs : list conversation) : option (list success_row) :=
  except_none (results ← iterrows convs 0 df_companies []; pd_concat results).

(** *** Downstream of the success dates *)

(** [df_success_dates[df_success_dates['success_date'].dt.year == 2023]];
    the year of a missing date compares unequal to 2023. *)
Definition df_2023 (df : list success_row) : list success_row :=
  filter (fun r => Calendar.year_of_ordinal <$> success_date r = Some 2023) df.

(** A missing [cum_total] compares false against 500. *)
Definition cum_total_ge_500 (r : success_row) : Prop :=
  match cum_total r with
  | Some c => 500 ≤ c
  | None => False
  end.

#[global] Instance cum_total_ge_500_dec r : Decision (cum_total_ge_500 r).
Proof. unfold cum_total_ge_500. destruct (cum_total r); apply _. Defined.

Definition determine_successful_companies (df : list success_row) : list success_row :=
  filter cum_total_ge_500 df.

(** *** Notions used to state what the queries compute *)

(** The sum of the totals of account [a] on day [D]; 0 on a day
    without rows. *)
Definition daily_sum (convs : list conversation) (a D : Z) : Z :=
  sumZ (total <$> filter (fun r => account_id r = a ∧ date r = D) convs).

(** The sum over day [D] and the two days before it. *)
Definition trailing_3_day (convs : list conversation) (a D : Z) : Z :=
  daily_sum convs a D + daily_sum convs a (D - 1) + daily_sum convs a (D - 2).

Definition has_rows (convs : list conversation) (a D : Z) : Prop :=
  ∃ r, r ∈ convs ∧ account_id r = a ∧ date r = D.

(** A day with rows on which the trailing sum reaches 350. *)
Definition qualifying (convs : list conversation) (a D : Z) : Prop :=
  has_rows convs a D ∧ 350 ≤ trailing_3_day convs a D.

(** [D] is the earliest day on which [f] is at least [T]. *)
Definition first_crossing (f : Z → Z) (T D : Z) : Prop :=
  T ≤ f D ∧ ∀ D', D' < D → f D' < T.

(** Totals count conversations. *)
Definition nonneg_totals (convs : list conversation) : Prop :=
  Forall (fun r => 0 ≤ total r) convs.

(** The earliest day of a running total of at least 500, before the
    correction in days is added. *)
Definition raw_crossing_date (convs : list conversation) (cid act : Z) : option Z :=
  sql_min ((crossed convs cid act (act + 60)).*1).

(** The statements between [try:] and [except] of
    [fetch_successful_conversations]. *)
Definition success_dates_body (df_companies : list company_row)
    (convs : list conversation) : outcome (list success_row) :=
  results ← iterrows convs 0 df_companies []; pd_concat results.

(** The days from 1678-01-01 to 2261-12-31: Python's [date] and
    pandas' [Timestamp] both hold every one of them. *)
Definition FIRST_DAY : Z := Eval cbv in Calendar.ymd2ord 1678 1 1.
Definition LAST_DAY : Z := Eval cbv in Calendar.ymd2ord 2261 12 31.

(** An activation date from which every date the loop and [main]
    compute stays within these days: the end of the period of 60 days,
    and a success date of the period moved by a correction between -25
    and 165 days. *)
Definition safe_activation (act : Z) : Prop :=
  FIRST_DAY ≤ act - 25 ∧ act + 60 + 165 ≤ LAST_DAY.

#[global] Instance safe_activation_dec act : Decision (safe_activation act).
Proof. unfold safe_activation. apply _. Defined.

(** The sum of the successful totals of company [cid] from day [act] up
    to day [D]. *)
Definition cumulative (convs : list conversation) (cid act D : Z) : Z :=
  sumZ (total <$> filter (in_period cid act D) convs).

(** The rows up to day [D]. *)
Definition upto (D : Z) (r : conversation) : Prop := date r ≤ D.

#[global] Instance upto_dec D r : Decision (upto D r).
Proof. unfold upto. apply _. Defined.

(** The rows of the period of 60 days of a company, in window order. *)
Definition period_rows (convs : list conversation) (cid act : Z) : list conversation :=
  merge_sort by_date (filter (in_period cid act (act + 60)) convs).

(** The row that one turn of the loop appends. *)
Definition result_row (convs : list conversation) (row : company_row)
    (act days : Z) : success_row :=
  let result := success_query convs (company_id row) act (act + 60) days in
  mk_success_row result.1 result.2 (company_id row).

End Script1.

(** ** 2_script.py: monthly percentage of successful companies *)

Module Script2.
Import Calendar.

(** A row of [company]; [close_date] is NULL while the company is open. *)
Record company : Set := mk_company {
  id : Z;
  name : string;
  close_date : option datetime
}.

(** A row of [company_identifiers]. *)
Record identifier : Set := mk_identifier {
  ci_company_id : Z;
  account_identifier : Z
}.

(** A row of [conversations]. *)
Record conversation : Set := mk_conversation {
  account_id : Z;
  date : datetime;
  total : Z;
  successful : bool
}.

Record database : Set := mk_database {
  company_table : list company;
  company_identifiers : list identifier;
  conversations : list conversation
}.

(** The date range of [get_recently_closed_companies]. *)
Definition date_range (month year : Z) : outcome (datetime * datetime) :=
  start_date ← (if decide (month ≠ 1) then new year (month - 1) 1
                else new (year - 1) 12 1);
  first ← new year month 1;
  end_date ← add_days first 31;
  back ← add_days end_date (- day end_date);
  end_date ← new year month (Z.min 31 (day back));
  Ok (start_date, end_date).

(** [close_date BETWEEN start AND end]; NULL is never between. *)
Definition between (start_date end_date : datetime) (c : company) : Prop :=
  match close_date c with
  | Some t => leb start_date t = true ∧ leb t end_date = true
  | None => False
  end.

#[global] Instance between_dec s e c : Decision (between s e c).
Proof. unfold between. destruct (close_date c); apply _. Defined.

Definition get_recently_closed_companies (d : database) (month year : Z)
    : outcome (list (Z * string)) :=
  range ← date_range month year;
  Ok ((fun c => (id c, name c))
      <$> filter (between range.1 range.2) (company_table d)).

Definition BONUSES : gmap Z (gmap Z Z) :=
  {[ 3 := {[ 10 := 80 ]};
     4 := {[ 11 := 100; 3 := 260 ]};
     5 := {[ 12 := 600; 11 := 400 ]};
     6 := {[ 12 := 350 ]};
     7 := {[ 13 := 200 ]};
     8 := {[ 15 := 400 ]} ]}.

(** [BONUSES.get(month, {}).get(company_id, 0)] *)
Definition bonus_of (month company_id : Z) : Z :=
  default 0 (default ∅ (BONUSES !! month) !! company_id).

(** A Python tuple passed for the [%s] of [IN %s]: the driver prints
    it between parentheses, and [IN ()] is not SQL. *)
Definition in_tuple (t : list Z) : outcome (list Z) :=
  match t with
  | [] => Raise ProgrammingError
  | _ => Ok t
  end.

Definition matched (accounts : list Z) (month year : Z) (r : conversation) : Prop :=
  account_id r ∈ accounts ∧ successful r = true
  ∧ Calendar.month (date r) = month ∧ Calendar.year (date r) = year.

#[global] Instance matched_dec accounts month year r :
  Decision (matched accounts month year r).
Proof. unfold matched. apply _. Defined.

(** [SELECT account_id, SUM(total) ... GROUP BY account_id] *)
Definition successful_conversations_query (d : database) (accounts : list Z)
    (month year : Z) : list (Z * Z) :=
  let rows := filter (matched accounts month year) (conversations d) in
  (fun a : Z => (a, sumZ (total <$> filter (fun r => account_id r = a) rows)))
  <$> remove_dups (account_id <$> rows).

Definition in_ids (ids : list Z) (i : identifier) : Prop := ci_company_id i ∈ ids.

#[global] Instance in_ids_dec ids i : Decision (in_ids ids i).
Proof. unfold in_ids. apply _. Defined.

(** The two nested [for] loops that fill [result]. *)
Definition map_to_company_ids (month : Z) (account_mapping : list (Z * Z))
    (successful_conversations : list (Z * Z)) : gmap Z Z :=
  foldl (fun result (m : Z * Z) =>
           foldl (fun result (s : Z * Z) =>
                    if decide (m.2 = s.1)
                    then <[ m.1 := s.2 + bonus_of month m.1 ]> result
                    else result)
                 result successful_conversations)
        ∅ account_mapping.

Definition get_successful_conversations_for_companies (d : database)
    (company_ids : list Z) (month year : Z) : outcome (gmap Z Z) :=
  if decide (company_ids = []) then Ok ∅
  else
    ids ← in_tuple company_ids;
    let account_mapping :=
      (fun i => (ci_company_id i, account_identifier i))
      <$> filter (in_ids ids) (company_identifiers d) in
    accounts ← in_tuple (account_mapping.*2);
    let successful_conversations :=
      successful_conversations_query d accounts month year in
    Ok (map_to_company_ids month account_mapping successful_conversations).

Definition len {A} (l : list A) : float :=
  PrimFloat.of_uint63 (Uint63.of_Z (Z.of_nat (length l))).

(** The percentage [main] computes from the dictionary of one month. *)
Definition percentage_of (successful_conversations : gmap Z Z) : float :=
  let active_companies := (map_to_list successful_conversations).*1 in
  let successful_companies :=
    (filter (fun kv : Z * Z => 1500 ≤ kv.2)
       (map_to_list successful_conversations)).*1 in
  match active_companies with
  | [] => 0%float
  | _ => (len successful_companies / len active_companies * 100)%float
  end.

(** One turn of the loop of [main]. *)
Definition month_percentage (d : database) (month year : Z) : outcome float :=
  companies ← get_recently_closed_companies d month year;
  let company_ids := companies.*1 in
  successful_conversations ←
    get_successful_conversations_for_companies d company_ids month year;
  Ok (percentage_of successful_conversations).

(** [for month in range(1, 9)] *)
Definition main (d : database) : outcome (list float) :=
  mapM (fun month => month_percentage d month 2023) (seqZ 1 8).

(** *** Notions used to state what the date range is *)

(** The number of days of a month of the calendar: 31, 30, and 28 or 29
    for February, 29 in the years divisible by 4 and not by 100, or by
    400. *)
Definition last_day_of_month (year month : Z) : Z :=
  if decide (month = 2) then
    if decide ((year mod 4 = 0 ∧ year mod 100 ≠ 0) ∨ year mod 400 = 0) then 29 else 28
  else if decide (month ∈ [4; 6; 9; 11]) then 30
  else 31.

(** The month before [month] of [year], as (year, month). *)
Definition preceding_month (month year : Z) : Z * Z :=
  if decide (month = 1) then (year - 1, 12) else (year, month - 1).

(** From the first day of the preceding month to the last day of the
    requested month. *)
Definition two_month_range (month year : Z) : datetime * datetime :=
  (mk_datetime (preceding_month month year).1 (preceding_month month year).2 1,
   mk_datetime year month (last_day_of_month year month)).

(** The requests for which [datetime] can hold every date on the way:
    all months of the years 1 to 9999 but January of year 1, which has
    no preceding month, and December of 9999, where adding 31 days
    leaves the range. *)
Definition supported (month year : Z) : Prop :=
  1 ≤ month ≤ 12 ∧ MINYEAR ≤ year ≤ MAXYEAR
  ∧ ¬ (year = MINYEAR ∧ month = 1) ∧ ¬ (year = MAXYEAR ∧ month = 12).

#[global] Instance supported_dec month year : Decision (supported month year).
Proof. unfold supported. apply _. Defined.

Definition closed_in_month (month year : Z) (t : datetime) : Prop :=
  Calendar.year t = year ∧ Calendar.month t = month.

(** The month after [month] of [year], as (year, month). *)
Definition following_month (month year : Z) : Z * Z :=
  if decide (month = 12) then (year + 1, 1) else (year, month + 1).

(** The company is among the rows returned for the request. *)
Definition selected (d : database) (month year : Z) (c : company) : Prop :=
  ∃ l, get_recently_closed_companies d month year = Ok l ∧ (id c, name c) ∈ l.

End Script2.

(** ** 3_script.py: cohort revenue *)

Module Script3.
Import Calendar.

Record company : Set := mk_company {
  id : Z;
  close_date : option datetime
}.

Record identifier : Set := mk_identifier {
  ci_company_id : Z;
  stripe_company_ids : Z
}.

Record stripe_invoice : Set := mk_stripe_invoice {
  si_company_id : Z;
  sent_date : datetime;
  amount : Z
}.

Record database : Set := mk_database {
  company_table : list company;
  company_identifiers : list identifier;
  stripe_invoices : list stripe_invoice
}.

(** A row of the frames that reach the heat map.  The cohort is kept as
    its month number; the frames label it ['{month}'] or
    ['2023-{month:02d}']. *)
Record cohort_row : Set := mk_cohort_row {
  cohort : Z;
  invoice_month : Z;
  revenue : option Z
}.

Definition closed_in (month : Z) (c : company) : Prop :=
  match close_date c with
  | Some t => year t = 2023 ∧ Calendar.month t = month
  | None => False
  end.

#[global] Instance closed_in_dec month c : Decision (closed_in month c).
Proof. unfold closed_in. destruct (close_date c); apply _. Defined.

Definition CompaniesClosedInMonth (d : database) (month : Z) : list Z :=
  id <$> filter (closed_in month) (company_table d).

Definition StripeIdsForCompaniesClosedInMonth (d : database) (month : Z) : list Z :=
  stripe_company_ids
  <$> filter (fun i => ci_company_id i ∈ CompaniesClosedInMonth d month)
        (company_identifiers d).

Definition sent_in (month : Z) (si : stripe_invoice) : Prop :=
  year (sent_date si) = 2023 ∧ month ≤ Calendar.month (sent_date si) ≤ 8.

#[global] Instance sent_in_dec month si : Decision (sent_in month si).
Proof. unfold sent_in. apply _. Defined.

(** [stripe_invoice si JOIN ... scim ON si.company_id = scim.stripe_company_ids
    WHERE ...]: one row per matching pair. *)
Definition joined_invoices (d : database) (month : Z) : list stripe_invoice :=
  si ← stripe_invoices d;
  scim ← StripeIdsForCompaniesClosedInMonth d month;
  if decide (si_company_id si = scim ∧ sent_in month si) then [si] else [].

(** Rows [(company_id, invoice_month, total_amount)]. *)
Definition InvoicesForCompaniesClosedInMonth (d : database) (month : Z)
    : list (Z * Z * Z) :=
  let rows := joined_invoices d month in
  (fun k : Z * Z =>
     (k.1, k.2,
      sumZ (amount <$> filter (fun si => si_company_id si = k.1
                                         ∧ Calendar.month (sent_date si) = k.2) rows)))
  <$> remove_dups ((fun si => (si_company_id si, Calendar.month (sent_date si))) <$> rows).

Definition fetch_monthly_data (d : database) (month : Z) : list cohort_row :=
  let rows := InvoicesForCompaniesClosedInMonth d month in
  (fun m : Z =>
     mk_cohort_row month m
       (Some (sumZ (snd <$> filter (fun r : Z * Z * Z => r.1.2 = m) rows))))
  <$> merge_sort Z.le (remove_dups ((fun r : Z * Z * Z => r.1.2) <$> rows)).

Definition mock_data : gmap Z (list Z) :=
  {[ 1 := [292; 644; 621; 317; 649; 556; 328; 536];
     2 := [754; 317; 307; 187; 228; 57; 95];
     3 := [51; 693; 173; 99; 356; 378];
     4 := [206; 278; 79; 52; 85];
     5 := [69; 63; 56; 85];
     6 := [404; 160; 329];
     7 := [276; 119];
     8 := [293] ]}.

(** The bare [return] hands back [None]. *)
Definition get_mock_revenue (cohort_month invoice_month : Z) : option Z :=
  let cohort_data := default [] (mock_data !! cohort_month) in
  if decide (1 ≤ invoice_month ≤ Z.of_nat (length cohort_data))
  then cohort_data !! Z.to_nat (invoice_month - 1)
  else None.


(** The frames [main] builds: the live one, by concatenation, and the
    mock one, which is the one plotted. *)
Definition final_dataframe (d : database) : list cohort_row :=
  month ← seqZ 1 8; fetch_monthly_data d month.

End Script3.

(** ** Concrete databases used as examples *)

Module Fixtures.
Import Script1.

(** Account 1 reaches exactly 350 over days 10 to 12. *)
Definition boundary_db : database :=
  mk_database
    [mk_conversation 1 10 120 true; mk_conversation 1 11 130 false;
     mk_conversation 1 12 100 true; mk_conversation 1 14 300 true;
     mk_conversation 2 3 500 true]
    [mk_company 1 "a" (Some "p"%string)].

Definition boundary_row : company_row := mk_company_row 1 "a" (Some 12).

(** Entity E: 100 conversations on each of the days 1 to 4. *)
Definition scenario_db : database :=
  mk_database
    [mk_conversation 1 1 100 true; mk_conversation 1 2 100 true;
     mk_conversation 1 3 100 true; mk_conversation 1 4 100 true]
    [mk_company 1 "E" (Some "partner"%string)].

Definition scenario_row : company_row := mk_company_row 1 "E" None.

(** Three activated companies and their successful conversations. *)
Definition success_convs : list conversation :=
  [mk_conversation 1 10 200 true; mk_conversation 1 20 300 true;
   mk_conversation 1 15 900 false;
   mk_conversation 2 100 500 true;
   mk_conversation 3 7 100 true].

Definition success_df : list company_row :=
  [mk_company_row 1 "a" (Some 10); mk_company_row 2 "b" (Some 100);
   mk_company_row 3 "c" (Some 5)].

Definition success_results : list success_row :=
  [mk_success_row (Some 20) (Some 500) 1;
   mk_success_row (Some 75) (Some 500) 2;
   mk_success_row None None 3].

(** Five activated companies. *)
Definition five_df : list company_row :=
  success_df ++ [mk_company_row 4 "d" (Some 1); mk_company_row 5 "e" (Some 2)].

(** A company closed on the last day of February of a leap year. *)
Definition leap_db : Script2.database :=
  Script2.mk_database
    [Script2.mk_company 7 "g" (Some (Calendar.mk_datetime 2024 2 29))] [] [].

(** One company closed in April 2023, without a row in
    [company_identifiers]. *)
Definition unmapped_db : Script2.database :=
  Script2.mk_database
    [Script2.mk_company 3 "c" (Some (Calendar.mk_datetime 2023 4 5))] [] [].


End Fixtures.

(** ** The rest of the scripts: callers and helpers *)

Module Script1_main.
Import Script1.

(** How [main] gets on: it reaches the frame [df_2023], which it goes on
    to resample and plot, or it stops at
    [df_success_dates['success_date'] = ...] with the [TypeError] of an
    item assignment on [None]. *)
Inductive run (A : Type) : Type :=
| Reached (a : A)
| TypeError.
Arguments Reached {A} a.
Arguments TypeError {A}.

(** [main], from the two fetches to [df_2023].  A [None] in place of
    [df_companies] makes the second fetch end in its handler, so it
    gives [None] too. *)
Definition main (d : database) : run (list success_row) :=
  match fetch_companies_from_db d with
  | Some df_companies =>
      match fetch_successful_conversations df_companies (conversations d) with
      | Some df_success_dates => Reached (df_2023 df_success_dates)
      | None => TypeError
      end
  | None => TypeError
  end.

(** What the first query reads of an account: the days and totals of
    its rows, in table order. *)
Definition own_rows (a : Z) (convs : list conversation) : list (Z * Z) :=
  (fun r => (date r, total r)) <$> filter (fun r => account_id r = a) convs.

(** The company has a day on which the first query finds it activated. *)
Definition activated (d : database) (c : company) : Prop :=
  ∃ D, qualifying (conversations d) (id c) D.

End Script1_main.

Module Script2_helpers.

(** A Python [str] as the list of its code points. *)
Definition str : Set := list Z.

Definition LEFT_BRACKET : Z := 91.
Definition RIGHT_BRACKET : Z := 93.
Definition BLACK_SQUARE : Z := 9632.
Definition WHITE_SQUARE : Z := 9633.

(** [s * n]: the empty string for [n] below 1. *)
Definition str_mul (s : str) (n : Z) : str := mjoin (replicate (Z.to_nat n) s).

Definition loading_bar (current_month total_months bar_length : Z) : str :=
  let progress := current_month in
  [LEFT_BRACKET] ++ str_mul [BLACK_SQUARE] progress
  ++ str_mul [WHITE_SQUARE] (bar_length - progress) ++ [RIGHT_BRACKET].

(** The sum of the successful totals of an account in a month. *)
Definition monthly_total (convs : list Script2.conversation) (a month year : Z) : Z :=
  sumZ (Script2.total
        <$> filter (fun r => Script2.account_id r = a ∧ Script2.successful r = true
                             ∧ Calendar.month (Script2.date r) = month
                             ∧ Calendar.year (Script2.date r) = year) convs).

(** The companies that the request for a month of 2023 selects. *)
Definition in_window (month : Z) (c : Script2.company) : Prop :=
  Script2.between (Script2.two_month_range month 2023).1
    (Script2.two_month_range month 2023).2 c.

(** The account has a successful conversation in the month. *)
Definition has_successful (convs : list Script2.conversation) (a month year : Z) : Prop :=
  ∃ r, r ∈ convs ∧ Script2.account_id r = a ∧ Script2.successful r = true
       ∧ Calendar.month (Script2.date r) = month
       ∧ Calendar.year (Script2.date r) = year.

End Script2_helpers.

Module Script3_helpers.
Import Script3.

(** The key of the first grouping: company and month of the invoice. *)
Definition invoice_key (si : stripe_invoice) : Z * Z :=
  (si_company_id si, Calendar.month (sent_date si)).

(** How many rows of the cohort's identifiers carry the invoice's
    company id. *)
Definition copies (d : database) (month : Z) (si : stripe_invoice) : nat :=
  length (filter (fun scim => scim = si_company_id si)
            (StripeIdsForCompaniesClosedInMonth d month)).

(** Some company closed in [month] of 2023 has an identifier row whose
    stripe id carries an invoice sent in month [m] of 2023. *)
Definition invoiced (d : database) (month m : Z) : Prop :=
  ∃ c i si,
    c ∈ company_table d ∧ closed_in month c
    ∧ i ∈ company_identifiers d ∧ ci_company_id i = id c
    ∧ si ∈ stripe_invoices d ∧ si_company_id si = stripe_company_ids i
    ∧ Calendar.year (sent_date si) = 2023 ∧ Calendar.month (sent_date si) = m.

(** The cell of the heat map that a row fills. *)
Definition frame_key (row : cohort_row) : Z * Z := (cohort row, invoice_month row).

(** Cohort first, then invoice month. *)
Definition key_lt (a b : Z * Z) : Prop := a.1 < b.1 ∨ (a.1 = b.1 ∧ a.2 < b.2).

End Script3_helpers.

(** ** Further concrete databases *)

Module MoreFixtures.

(** The rows of account 1 of [Fixtures.boundary_db] with other flags,
    among other rows of account 2. *)
Definition reflagged_db : Script1.database :=
  Script1.mk_database
    [Script1.mk_conversation 2 11 900 true;
     Script1.mk_conversation 1 10 120 false; Script1.mk_conversation 1 11 130 true;
     Script1.mk_conversation 1 12 100 false; Script1.mk_conversation 1 14 300 false]
    [Script1.mk_company 1 "z" (Some "q"%string)].

(** Totals -100 and 400 on days 1 and 2: the sum of three days is 400
    on day 4 only, a day without rows. *)
Definition negative_db : Script1.database :=
  Script1.mk_database
    [Script1.mk_conversation 1 1 (-100) true; Script1.mk_conversation 1 2 400 true]
    [Script1.mk_company 1 "n" (Some "p"%string)].

(** Spring 2023 (day 738600 is 2023-03-21): company 1 is activated on
    day 738600 and reaches 500 ten days later; company 2 is activated on
    day 738610 by conversations that were not successful. *)
Definition season_convs : list Script1.conversation :=
  [Script1.mk_conversation 1 738600 400 true;
   Script1.mk_conversation 1 738610 200 true;
   Script1.mk_conversation 2 738610 350 false].

Definition season_db : Script1.database :=
  Script1.mk_database season_convs
    [Script1.mk_company 1 "a" (Some "p"%string);
     Script1.mk_company 2 "b" (Some "p"%string)].

Definition season_df : list Script1.company_row :=
  [Script1.mk_company_row 1 "a" (Some 738600);
   Script1.mk_company_row 2 "b" (Some 738610)].

Definition season_five_df : list Script1.company_row :=
  season_df
  ++ [Script1.mk_company_row 3 "c" (Some 738620);
      Script1.mk_company_row 4 "d" (Some 738630);
      Script1.mk_company_row 5 "e" (Some 738640)].

(** Company 1 is activated on day 738600 and has no successful
    conversation; company 2 has no conversation at all. *)
Definition unreturned_db : Script1.database :=
  Script1.mk_database
    [Script1.mk_conversation 1 738600 400 false]
    [Script1.mk_company 1 "a" (Some "p"%string);
     Script1.mk_company 2 "b" (Some "p"%string)].

Definition unreturned_df : list Script1.company_row :=
  [Script1.mk_company_row 1 "a" (Some 738600);
   Script1.mk_company_row 2 "b" None].

(** A company that goes on after the day it reaches 500. *)
Definition late_convs : list Script1.conversation :=
  [Script1.mk_conversation 1 10 300 true; Script1.mk_conversation 1 20 300 true;
   Script1.mk_conversation 1 30 400 true].

Definition late_df : list Script1.company_row :=
  [Script1.mk_company_row 1 "a" (Some 10)].

Definition late_results : list Script1.success_row :=
  [Script1.mk_success_row (Some 20) (Some 1000) 1].

(** Company 3 has three accounts, of which 30 and 31 have successful
    conversations in April 2023; company 11 has none in April. *)
Definition april_db : Script2.database :=
  Script2.mk_database
    [Script2.mk_company 3 "c" (Some (Calendar.mk_datetime 2023 4 5));
     Script2.mk_company 11 "k" (Some (Calendar.mk_datetime 2023 3 20))]
    [Script2.mk_identifier 3 30; Script2.mk_identifier 3 31;
     Script2.mk_identifier 3 32; Script2.mk_identifier 11 110]
    [Script2.mk_conversation 30 (Calendar.mk_datetime 2023 4 2) 1000 true;
     Script2.mk_conversation 30 (Calendar.mk_datetime 2023 4 10) 700 true;
     Script2.mk_conversation 31 (Calendar.mk_datetime 2023 4 3) 50 true;
     Script2.mk_conversation 30 (Calendar.mk_datetime 2023 4 11) 999 false;
     Script2.mk_conversation 110 (Calendar.mk_datetime 2023 3 5) 900 true].

Definition april_result : gmap Z Z := {[ 3 := 310 ]}.

(** Two companies closed in March 2023 that share the stripe id 71. *)
Definition shared_db : Script3.database :=
  Script3.mk_database
    [Script3.mk_company 1 (Some (Calendar.mk_datetime 2023 3 9));
     Script3.mk_company 2 (Some (Calendar.mk_datetime 2023 3 15))]
    [Script3.mk_identifier 1 71; Script3.mk_identifier 2 71]
    [Script3.mk_stripe_invoice 71 (Calendar.mk_datetime 2023 3 20) 40;
     Script3.mk_stripe_invoice 71 (Calendar.mk_datetime 2023 5 2) 60].

End MoreFixtures.

(** * Properties *)

(** ** The SQL building blocks *)

Section sql_facts.

Lemma sumZ_nonneg (l : list Z) : Forall (fun x => 0 ≤ x) l → 0 ≤ sumZ l.
Proof. induction 1; simpl; lia. Qed.

Lemma sumZ_Permutation (l1 l2 : list Z) : l1 ≡ₚ l2 → sumZ l1 = sumZ l2.
Proof. induction 1; simpl; lia. Qed.

Lemma foldr_min_spec (x : Z) (r : list Z) :
  foldr Z.min x r ∈ x :: r ∧ ∀ y, y ∈ x :: r → foldr Z.min x r ≤ y.
Proof.
  induction r as [|z r [IHin IHle]]; simpl.
  - split; [left | intros y Hy; apply list_elem_of_singleton in Hy; lia].
  - split.
    + destruct (Z.min_spec z (foldr Z.min x r)) as [[_ ->]|[_ ->]].
      * right; left.
      * apply elem_of_cons in IHin as [->|Hin]; [left | right; by right].
    + intros y Hy.
      assert (Hy' : y = z ∨ y ∈ x :: r).
      { apply elem_of_cons in Hy as [->|Hy]; [right; left|].
        apply elem_of_cons in Hy as [->|Hy]; [by left | right; by right]. }
      destruct Hy' as [->|Hy']; [lia | specialize (IHle y Hy'); lia].
Qed.

Lemma sql_min_Some (l : list Z) (m : Z) :
  sql_min l = Some m ↔ m ∈ l ∧ ∀ y, y ∈ l → m ≤ y.
Proof.
  destruct l as [|x r]; simpl.
  - split; [done | intros [H _]; by apply elem_of_nil in H].
  - destruct (foldr_min_spec x r) as [Hin Hle]. split.
    + intros [= <-]. done.
    + intros [Hm Hmin]. f_equal.
      specialize (Hle m Hm). specialize (Hmin _ Hin). lia.
Qed.

Lemma sql_min_None (l : list Z) : sql_min l = None ↔ l = [].
Proof. by destruct l. Qed.

Context {A B : Type} (on : A → B → Prop) `{∀ a b, Decision (on a b)}.

Lemma elem_of_left_join (l : list A) (r : list B) (a : A) (ob : option B) :
  (a, ob) ∈ left_join on l r ↔
  a ∈ l ∧ match ob with
          | None => ∀ b, b ∈ r → ¬ on a b
          | Some b => b ∈ r ∧ on a b
          end.
Proof.
  unfold left_join. rewrite list_elem_of_bind. split.
  - intros (a' & Hin & Ha').
    destruct (filter (on a') r) as [|b0 ms] eqn:Hf.
    + apply list_elem_of_singleton in Hin as [= -> ->]. split; [done|].
      intros b Hb Hon. eapply filter_nil_not_elem_of; eauto.
    + apply list_elem_of_fmap in Hin as (b & [= -> ->] & Hb).
      rewrite <- Hf in Hb. apply list_elem_of_filter in Hb as [? ?]. done.
  - intros [Ha Hob]. exists a. split; [|done].
    destruct ob as [b|].
    + destruct Hob as [Hb Hon].
      assert (Hbf : b ∈ filter (on a) r) by (apply list_elem_of_filter; done).
      destruct (filter (on a) r) as [|b0 ms]; [by apply elem_of_nil in Hbf|].
      apply list_elem_of_fmap. eauto.
    + destruct (filter (on a) r) as [|b0 ms] eqn:Hf; [left|].
      exfalso. assert (Hb0 : b0 ∈ filter (on a) r) by (rewrite Hf; left).
      apply list_elem_of_filter in Hb0 as [Hon Hb0]. by eapply Hob.
Qed.

(** Every left row survives a LEFT JOIN. *)
Lemma left_join_total (l : list A) (r : list B) (a : A) :
  a ∈ l → ∃ ob, (a, ob) ∈ left_join on l r.
Proof.
  intros Ha. destruct (filter (on a) r) as [|b0 ms] eqn:Hf.
  - exists None. apply elem_of_left_join. split; [done|].
    intros b Hb Hon. eapply filter_nil_not_elem_of; eauto.
  - exists (Some b0). apply elem_of_left_join. split; [done|].
    assert (Hb0 : b0 ∈ filter (on a) r) by (rewrite Hf; left).
    apply list_elem_of_filter in Hb0 as [? ?]. done.
Qed.

End sql_facts.

(** ** 1_script.py, first pass: activation dates *)

Module Script1_activation.
Import Script1.

Section first_pass.
Variable convs : list conversation.

Lemma daily_sum_no_rows (a D : Z) : ¬ has_rows convs a D → daily_sum convs a D = 0.
Proof.
  intros Hno. unfold daily_sum.
  destruct (filter _ convs) as [|r l] eqn:Hf; [done|].
  exfalso. apply Hno. exists r.
  assert (Hr : r ∈ filter (fun r => account_id r = a ∧ date r = D) convs)
    by (rewrite Hf; left).
  apply list_elem_of_filter in Hr as [[? ?] ?]. done.
Qed.

Lemma has_rows_dec (a D : Z) : has_rows convs a D ∨ ¬ has_rows convs a D.
Proof.
  destruct (filter (fun r => account_id r = a ∧ date r = D) convs) as [|r l] eqn:Hf.
  - right. intros (r & Hr & Ha & HD).
    by apply (filter_nil_not_elem_of _ _ r Hf).
  - left. exists r.
    assert (Hr : r ∈ filter (fun r => account_id r = a ∧ date r = D) convs)
      by (rewrite Hf; left).
    apply list_elem_of_filter in Hr as [[? ?] ?]. done.
Qed.

Lemma daily_sum_nonneg (a D : Z) : nonneg_totals convs → 0 ≤ daily_sum convs a D.
Proof.
  intros Hnn. apply sumZ_nonneg, Forall_fmap.
  apply Forall_forall. intros r Hr.
  apply list_elem_of_filter in Hr as [_ Hr].
  unfold nonneg_totals in Hnn. rewrite Forall_forall in Hnn. by apply Hnn.
Qed.

Lemma elem_of_daily_conversations (dc : daily) :
  dc ∈ daily_conversations convs ↔
  has_rows convs (dc_account_id dc) (dc_date dc)
  ∧ daily_total dc = daily_sum convs (dc_account_id dc) (dc_date dc).
Proof.
  unfold daily_conversations. rewrite list_elem_of_fmap. split.
  - intros ([a D] & -> & Hk). simpl.
    apply elem_of_remove_dups, list_elem_of_fmap in Hk as (r & [= -> ->] & Hr).
    split; [by exists r | done].
  - intros [(r & Hr & Ha & HD) Ht]. exists (dc_account_id dc, dc_date dc). split.
    + destruct dc as [a D t]. simpl in *. by rewrite Ht.
    + apply elem_of_remove_dups, list_elem_of_fmap. exists r.
      split; [by rewrite Ha, HD | done].
Qed.

(** What a LEFT JOIN on the day [k] days back contributes after
    [COALESCE(.., 0)]. *)
Lemma coalesce_joined (a D : Z) (o : option daily) :
  match o with
  | None => ∀ b, b ∈ daily_conversations convs →
                 ¬ (a = dc_account_id b ∧ dc_date b = D)
  | Some b => b ∈ daily_conversations convs ∧ (a = dc_account_id b ∧ dc_date b = D)
  end →
  coalesce (daily_total <$> o) 0 = daily_sum convs a D.
Proof.
  destruct o as [b|]; simpl.
  - intros (Hb & -> & <-). by apply elem_of_daily_conversations in Hb as [_ ->].
  - intros Hno. symmetry. apply daily_sum_no_rows. intros Hrows.
    apply (Hno (mk_daily a D (daily_sum convs a D))); [|done].
    by apply elem_of_daily_conversations.
Qed.

Lemma elem_of_three_day_conversations (td : three_day) :
  td ∈ three_day_conversations convs ↔
  has_rows convs (td_account_id td) (td_date td)
  ∧ total_3_day td = trailing_3_day convs (td_account_id td) (td_date td)
  ∧ 350 ≤ total_3_day td.
Proof.
  unfold three_day_conversations. rewrite list_elem_of_fmap. split.
  - intros ([[dc1 dc2] dc3] & -> & Hj). simpl.
    apply list_elem_of_filter in Hj as [Hge Hj].
    apply elem_of_left_join in Hj as [Hj H3]. simpl in H3.
    apply elem_of_left_join in Hj as [H1 H2].
    apply elem_of_daily_conversations in H1 as [Hrows Ht].
    split; [done|]. split; [|done].
    unfold sum_3_day, trailing_3_day. simpl.
    rewrite Ht, (coalesce_joined _ _ _ H2), (coalesce_joined _ _ _ H3). done.
  - intros (Hrows & Ht & Hge).
    set (dc1 := mk_daily (td_account_id td) (td_date td)
                  (daily_sum convs (td_account_id td) (td_date td))).
    assert (H1 : dc1 ∈ daily_conversations convs)
      by (by apply elem_of_daily_conversations).
    destruct (left_join_total
                (fun dc1 dc2 : daily =>
                   dc_account_id dc1 = dc_account_id dc2
                   ∧ dc_date dc2 = dc_date dc1 - 1)
                _ (daily_conversations convs) dc1 H1) as [dc2 H12].
    destruct (left_join_total
                (fun (j : daily * option daily) (dc3 : daily) =>
                   dc_account_id j.1 = dc_account_id dc3
                   ∧ dc_date dc3 = dc_date j.1 - 2)
                _ (daily_conversations convs) (dc1, dc2) H12) as [dc3 H123].
    assert (Hsum : sum_3_day (dc1, dc2, dc3)
                   = trailing_3_day convs (td_account_id td) (td_date td)).
    { apply elem_of_left_join in H123 as [_ H3]. simpl in H3.
      apply elem_of_left_join in H12 as [_ H2].
      unfold sum_3_day, trailing_3_day. simpl.
      by rewrite (coalesce_joined _ _ _ H2), (coalesce_joined _ _ _ H3). }
    exists (dc1, dc2, dc3). split.
    + destruct td as [a D t]. simpl in *. by rewrite Hsum, Ht.
    + apply list_elem_of_filter. split; [|done]. simpl. rewrite Hsum, <- Ht. done.
Qed.

Lemma qualifying_dates (a D : Z) :
  D ∈ td_date <$> filter (fun r => td_account_id r = a) (three_day_conversations convs)
  ↔ qualifying convs a D.
Proof.
  rewrite list_elem_of_fmap. split.
  - intros (td & -> & Htd). apply list_elem_of_filter in Htd as [<- Htd].
    apply elem_of_three_day_conversations in Htd as (? & Ht & ?).
    split; [done | by rewrite <- Ht].
  - intros [Hrows Hge]. exists (mk_three_day a D (trailing_3_day convs a D)).
    split; [done|]. apply list_elem_of_filter. split; [done|].
    by apply elem_of_three_day_conversations.
Qed.

Lemma elem_of_first_activation (a : Z) (o : option Z) :
  (a, o) ∈ first_activation convs ↔
  ∃ D, o = Some D ∧ qualifying convs a D ∧ ∀ D', qualifying convs a D' → D ≤ D'.
Proof.
  unfold first_activation. rewrite list_elem_of_fmap. split.
  - intros (a' & [= <- ->] & Ha).
    apply elem_of_remove_dups, list_elem_of_fmap in Ha as (td & -> & Htd).
    destruct (sql_min _) as [D|] eqn:Hmin.
    + exists D. split; [done|]. apply sql_min_Some in Hmin as [Hin Hle].
      split; [by apply qualifying_dates|].
      intros D' HD'. by apply Hle, qualifying_dates.
    + exfalso. apply sql_min_None in Hmin.
      assert (Hin : td_date td ∈ td_date <$>
                filter (fun r => td_account_id r = td_account_id td)
                  (three_day_conversations convs)).
      { apply list_elem_of_fmap_2, list_elem_of_filter. done. }
      rewrite Hmin in Hin. by apply elem_of_nil in Hin.
  - intros (D & -> & HqD & Hle). exists a. split.
    + f_equal. symmetry. apply sql_min_Some. split; [by apply qualifying_dates|].
      intros D' HD'. by apply Hle, qualifying_dates.
    + apply elem_of_remove_dups, list_elem_of_fmap.
      exists (mk_three_day a D (trailing_3_day convs a D)). split; [done|].
      destruct HqD. by apply elem_of_three_day_conversations.
Qed.

(** With totals that are counts, a trailing sum that reaches 350 on
    some day already reaches it on a day that has rows, not later. *)
Lemma crossing_has_rows (a D : Z) :
  nonneg_totals convs → 350 ≤ trailing_3_day convs a D →
  ∃ D', D' ≤ D ∧ qualifying convs a D'.
Proof.
  intros Hnn Hge. unfold qualifying, trailing_3_day in *.
  pose proof (daily_sum_nonneg a (D - 1 - 2) Hnn) as Hn3.
  pose proof (daily_sum_nonneg a (D - 2 - 1) Hnn) as Hn3'.
  pose proof (daily_sum_nonneg a (D - 2 - 2) Hnn) as Hn4.
  destruct (has_rows_dec a D) as [H0|H0].
  { exists D. split; [lia | done]. }
  apply daily_sum_no_rows in H0.
  destruct (has_rows_dec a (D - 1)) as [H1|H1].
  { exists (D - 1). split; [lia|]. split; [done|].
    replace (D - 1 - 1) with (D - 2) by lia. lia. }
  apply daily_sum_no_rows in H1.
  destruct (has_rows_dec a (D - 2)) as [H2|H2].
  { exists (D - 2). split; [lia|]. split; [done|]. lia. }
  apply daily_sum_no_rows in H2. lia.
Qed.

Lemma first_activation_account (a D : Z) :
  qualifying convs a D → ∃ o, (a, o) ∈ first_activation convs.
Proof.
  intros [Hrows Hge]. eexists. unfold first_activation.
  apply list_elem_of_fmap. exists a. split; [done|].
  apply elem_of_remove_dups, list_elem_of_fmap.
  exists (mk_three_day a D (trailing_3_day convs a D)). split; [done|].
  by apply elem_of_three_day_conversations.
Qed.

End first_pass.

(** The rows of the result: one per match of a partnered company. *)
Lemma elem_of_companies_query (d : database) (row : company_row) :
  row ∈ companies_query d ↔
  ∃ c o, row = mk_company_row (id c) (name c) (o ≫= snd)
         ∧ partnered c ∧ c ∈ company_table d
         ∧ match o with
           | None => ∀ f, f ∈ first_activation (conversations d) → ¬ on_account c f
           | Some f => f ∈ first_activation (conversations d) ∧ on_account c f
           end.
Proof.
  unfold companies_query. rewrite list_elem_of_fmap. split.
  - intros ([c o] & -> & Hj). apply list_elem_of_filter in Hj as [Hp Hj].
    apply elem_of_left_join in Hj as [Hc Ho]. exists c, o. done.
  - intros (c & o & -> & Hp & Hc & Ho). exists (c, o). split; [done|].
    apply list_elem_of_filter. split; [done|]. by apply elem_of_left_join.
Qed.

(** What the query itself computes, whatever the totals are: the
    earliest day with rows on which the trailing sum reaches 350. *)
Lemma activation_date_qualifying (d : database) (row : company_row) :
  row ∈ companies_query d →
  (∀ D, activation_date row = Some D ↔
        qualifying (conversations d) (company_id row) D
        ∧ ∀ D', qualifying (conversations d) (company_id row) D' → D ≤ D')
  ∧ (activation_date row = None ↔
     ∀ D, ¬ qualifying (conversations d) (company_id row) D).
Proof.
  intros Hrow. apply elem_of_companies_query in Hrow as (c & o & -> & _ & _ & Ho).
  simpl. destruct o as [[a o]|]; simpl.
  - destruct Ho as [Hf Hon]. unfold on_account in Hon. simpl in Hon. subst a.
    apply elem_of_first_activation in Hf as (D0 & -> & Hq & Hmin). split.
    + intros D. split.
      * intros [= <-]. done.
      * intros [HqD HminD]. f_equal.
        specialize (Hmin _ HqD). specialize (HminD _ Hq). lia.
    + split; [done|]. intros Hno. by destruct (Hno D0).
  - split.
    + intros D. split; [done|]. intros [HqD _]. exfalso.
      destruct (first_activation_account _ _ _ HqD) as [o Hf].
      by apply (Ho (id c, o) Hf).
    + split; [|done]. intros _ D HqD.
      destruct (first_activation_account _ _ _ HqD) as [o Hf].
      by apply (Ho (id c, o) Hf).
Qed.

(** Every partnered company has a row. *)
Lemma companies_query_complete (d : database) (c : company) :
  c ∈ company_table d → partnered c →
  ∃ row, row ∈ companies_query d ∧ company_id row = id c.
Proof.
  intros Hc Hp.
  destruct (left_join_total on_account (company_table d)
              (first_activation (conversations d)) c Hc) as [o Ho].
  exists (mk_company_row (id c) (name c) (o ≫= snd)). split; [|done].
  apply elem_of_companies_query. exists c, o.
  apply elem_of_left_join in Ho as [_ Ho]. done.
Qed.

(** With totals that are counts, the earliest day with rows is the
    earliest day of all. *)
Lemma activation_date_counts (d : database)
    (df_companies : list company_row) (row : company_row) :
  nonneg_totals (conversations d) →
  fetch_companies_from_db d = Some df_companies →
  row ∈ df_companies →
  (∀ D, activation_date row = Some D ↔
        first_crossing (trailing_3_day (conversations d) (company_id row)) 350 D)
  ∧ (activation_date row = None ↔
     ∀ D, trailing_3_day (conversations d) (company_id row) D < 350)
  ∧ (∀ D, trailing_3_day (conversations d) (company_id row) D = 350 →
          (∀ D', D' < D → trailing_3_day (conversations d) (company_id row) D' < 350) →
          activation_date row = Some D).
Proof.
  intros Hnn [= <-] Hrow.
  destruct (activation_date_qualifying d row Hrow) as [HSome HNone].
  set (a := company_id row) in *. set (convs := conversations d) in *.
  assert (Hfirst : ∀ D, activation_date row = Some D ↔
                        first_crossing (trailing_3_day convs a) 350 D).
  { intros D. rewrite HSome. unfold first_crossing. split.
    - intros [[Hrows Hge] Hmin]. split; [done|].
      intros D' Hlt. destruct (Z_lt_ge_dec (trailing_3_day convs a D') 350) as [|Hge']; [done|].
      destruct (crossing_has_rows convs a D' Hnn) as (D'' & Hle & Hq); [lia|].
      specialize (Hmin _ Hq). lia.
    - intros [Hge Hbefore].
      destruct (crossing_has_rows convs a D Hnn Hge) as (D'' & Hle & Hq).
      assert (D'' = D) as ->.
      { destruct (Z_lt_ge_dec D'' D) as [Hlt|]; [|lia].
        destruct Hq as [_ Hq]. specialize (Hbefore _ Hlt). lia. }
      split; [done|]. intros D' [_ Hq'].
      destruct (Z_lt_ge_dec D' D) as [Hlt|]; [|lia].
      specialize (Hbefore _ Hlt). lia. }
  split; [done|]. split.
  - rewrite HNone. split.
    + intros Hno D. destruct (Z_lt_ge_dec (trailing_3_day convs a D) 350) as [|Hge]; [done|].
      destruct (crossing_has_rows convs a D Hnn) as (D'' & _ & Hq); [lia|].
      by destruct (Hno D'').
    + intros Hlt D [_ Hq]. specialize (Hlt D). lia.
  - intros D Heq Hbefore. apply Hfirst. split; [lia | done].
Qed.

(** C1, amended.  For every row that [fetch_companies_from_db] returns:
    the activation date is [D] exactly when [D] is the earliest day that
    has rows of the company and on which the sum of the daily totals of
    the day and of the two days before it (a day without rows counting
    0) is at least 350, and there is no activation date exactly when no
    day with rows has such a sum.  The test is [>=]: a sum of exactly
    350 on a day with rows, not reached before, makes that day the
    activation date.  With totals that are counts (none negative) a day
    on which the sum is first reached has rows, and the activation date
    is the earliest day of all on which the sum is at least 350. *)
Theorem activation_date_first_crossing (d : database)
    (df_companies : list company_row) (row : company_row) :
  fetch_companies_from_db d = Some df_companies →
  row ∈ df_companies →
  (∀ D, activation_date row = Some D ↔
        qualifying (conversations d) (company_id row) D
        ∧ ∀ D', qualifying (conversations d) (company_id row) D' → D ≤ D')
  ∧ (activation_date row = None ↔
     ∀ D, ¬ qualifying (conversations d) (company_id row) D)
  ∧ (∀ D, has_rows (conversations d) (company_id row) D →
          trailing_3_day (conversations d) (company_id row) D = 350 →
          (∀ D', D' < D → trailing_3_day (conversations d) (company_id row) D' < 350) →
          activation_date row = Some D)
  ∧ (nonneg_totals (conversations d) →
     (∀ D, activation_date row = Some D ↔
           first_crossing (trailing_3_day (conversations d) (company_id row)) 350 D)
     ∧ (activation_date row = None ↔
        ∀ D, trailing_3_day (conversations d) (company_id row) D < 350)
     ∧ (∀ D, trailing_3_day (conversations d) (company_id row) D = 350 →
             (∀ D', D' < D →
                    trailing_3_day (conversations d) (company_id row) D' < 350) →
             activation_date row = Some D)).
Proof.
  intros Hfetch Hrow. pose proof Hfetch as [= <-].
  destruct (activation_date_qualifying d row Hrow) as [HSome HNone].
  split; [done|]. split; [done|]. split.
  - intros D Hrows Heq Hbefore. apply HSome. split.
    + split; [done | lia].
    + intros D' [_ Hge]. destruct (Z_lt_ge_dec D' D) as [Hlt|]; [|lia].
      specialize (Hbefore _ Hlt). lia.
  - intros Hnn. by apply (activation_date_counts d (companies_query d) row).
Qed.

(** C7, amended.  An entity whose daily totals are 100 on each of the
    days 1 to 4, and nothing else, has trailing sums 100, 200, 300 and
    300 on these days, below 350 on every day: the query reports no
    activation date for it. *)
Theorem scenario_no_crossing (d : database) (df_companies : list company_row)
    (row : company_row) :
  (∀ D, daily_sum (conversations d) (company_id row) D
        = if bool_decide (1 ≤ D ≤ 4) then 100 else 0) →
  fetch_companies_from_db d = Some df_companies →
  row ∈ df_companies →
  activation_date row = None
  ∧ trailing_3_day (conversations d) (company_id row) <$> [1; 2; 3; 4]
    = [100; 200; 300; 300].
Proof.
  intros Hdaily [= <-] Hrow. split.
  - apply (activation_date_qualifying d row Hrow). intros D [_ Hge].
    unfold trailing_3_day in Hge. rewrite !Hdaily in Hge.
    repeat case_bool_decide; lia.
  - simpl. unfold trailing_3_day. rewrite !Hdaily. done.
Qed.

End Script1_activation.


(** ** 1_script.py, second pass: success dates *)

Module Script1_success.
Import Script1.

#[local] Instance by_date_trans : Transitive by_date.
Proof. unfold by_date. intros a b c. lia. Qed.

#[local] Instance by_date_total : Total by_date.
Proof. unfold by_date. intros a b. lia. Qed.

(** Put every sum over a column in one shape before arithmetic. *)
Ltac fold_sums := unfold fmap in *; simpl in *.

Section running.

Lemma running_total_date (l : list conversation) (acc D c : Z) :
  (D, c) ∈ running_total acc l → ∃ r, r ∈ l ∧ date r = D.
Proof.
  revert acc. induction l as [|r l IH]; intros acc; simpl.
  - intros H. by apply elem_of_nil in H.
  - intros H. apply elem_of_cons in H as [[= -> ->]|H].
    + exists r. split; [left | done].
    + destruct (IH _ H) as (r' & Hr' & HD). exists r'. split; [by right | done].
Qed.

Lemma running_total_le_sum (l : list conversation) (acc D c : Z) :
  nonneg_totals l → (D, c) ∈ running_total acc l → c ≤ acc + sumZ (total <$> l).
Proof.
  intros Hnn. revert acc. induction Hnn as [|r l Hr Hnn IH]; intros acc; simpl.
  - intros H. by apply elem_of_nil in H.
  - intros H. apply elem_of_cons in H as [[= -> ->]|H].
    + assert (0 ≤ sumZ (total <$> l)); [|fold_sums; lia].
      apply sumZ_nonneg, Forall_fmap. done.
    + specialize (IH _ H). fold_sums. lia.
Qed.

(** A running total is at most the sum of the totals up to its day. *)
Lemma running_total_le_upto (l : list conversation) (acc D c : Z) :
  nonneg_totals l → StronglySorted by_date l →
  (D, c) ∈ running_total acc l →
  c ≤ acc + sumZ (total <$> filter (upto D) l).
Proof.
  intros Hnn. revert acc.
  induction Hnn as [|r l Hr Hnn IH]; intros acc Hs; simpl.
  - intros H. by apply elem_of_nil in H.
  - apply StronglySorted_inv in Hs as [Hs Hall].
    assert (Hrest : 0 ≤ sumZ (total <$> filter (upto D) l)).
    { apply sumZ_nonneg, Forall_fmap, Forall_forall. intros x Hx.
      apply list_elem_of_filter in Hx as [_ Hx].
      unfold nonneg_totals in Hnn. rewrite Forall_forall in Hnn. by apply Hnn. }
    intros H. apply elem_of_cons in H as [[= -> ->]|H].
    + rewrite filter_cons_True by (unfold upto; lia). fold_sums. lia.
    + destruct (running_total_date _ _ _ _ H) as (r' & Hr' & HD).
      rewrite Forall_forall in Hall. specialize (Hall _ Hr'). unfold by_date in Hall.
      rewrite filter_cons_True by (unfold upto; lia). simpl.
      specialize (IH _ Hs H). fold_sums. lia.
Qed.

(** Before the earliest day of a running total of at least 500, the
    sum of the totals is below 500. *)
Lemma running_total_before (l : list conversation) (acc D' : Z) :
  StronglySorted by_date l → acc < 500 →
  (∀ D c, (D, c) ∈ running_total acc l → 500 ≤ c → D' < D) →
  acc + sumZ (total <$> filter (upto D') l) < 500.
Proof.
  revert acc. induction l as [|r l IH]; intros acc Hs Hacc Hlater; simpl.
  - lia.
  - apply StronglySorted_inv in Hs as [Hs Hall].
    destruct (decide (upto D' r)) as [Hr|Hr].
    + rewrite filter_cons_True by done. simpl.
      assert (Hhead : acc + total r < 500).
      { destruct (Z_lt_ge_dec (acc + total r) 500) as [|Hge]; [done|].
        assert (D' < date r); [|unfold upto in Hr; lia].
        apply (Hlater (date r) (acc + total r)); [left | lia]. }
      specialize (IH (acc + total r) Hs Hhead).
      assert (acc + total r + sumZ (total <$> filter (upto D') l) < 500); [|fold_sums; lia].
      apply IH. intros D c HDc Hc. apply (Hlater D c); [by right | done].
    + rewrite filter_cons_False by done.
      assert (Hnil : filter (upto D') l = []).
      { apply elem_of_nil_inv. intros x Hx.
        apply list_elem_of_filter in Hx as [Hux Hx].
        rewrite Forall_forall in Hall. specialize (Hall _ Hx).
        unfold by_date, upto in *. lia. }
      rewrite Hnil. simpl. lia.
Qed.

End running.

Section one_company.
Variables (convs : list conversation) (cid act : Z).

Local Abbreviation period := (period_rows convs cid act).

Lemma period_sorted : StronglySorted by_date period.
Proof. apply StronglySorted_merge_sort; apply _. Qed.

Lemma period_nonneg : nonneg_totals convs → nonneg_totals period.
Proof.
  intros Hnn. unfold nonneg_totals, period_rows in *. rewrite Forall_forall in *.
  intros r Hr. rewrite merge_sort_Permutation in Hr.
  apply list_elem_of_filter in Hr as [_ Hr]. by apply Hnn.
Qed.

(** The rows of the period up to day [D] add up to [cumulative]. *)
Lemma period_upto (D : Z) :
  D ≤ act + 60 → sumZ (total <$> filter (upto D) period) = cumulative convs cid act D.
Proof.
  intros HD. unfold cumulative, period_rows. apply sumZ_Permutation, fmap_Permutation.
  rewrite merge_sort_Permutation, list_filter_filter.
  rewrite (list_filter_iff _ (in_period cid act D)); [done|].
  intros r. unfold upto, in_period. intuition lia.
Qed.

Lemma cumulative_before (D : Z) : D < act → cumulative convs cid act D = 0.
Proof.
  intros HD. unfold cumulative.
  assert (Hnil : filter (in_period cid act D) convs = []); [|by rewrite Hnil].
  apply elem_of_nil_inv. intros x Hx. apply list_elem_of_filter in Hx as [Hp _].
  unfold in_period in Hp. lia.
Qed.

Lemma elem_of_CumulativeConversations (D c : Z) :
  (D, c) ∈ CumulativeConversations convs cid act (act + 60) → act ≤ D ≤ act + 60.
Proof.
  intros H. apply running_total_date in H as (r & Hr & <-).
  rewrite merge_sort_Permutation in Hr.
  apply list_elem_of_filter in Hr as [(_ & _ & ?) _]. done.
Qed.

(** The day the query finds, before the correction: in the period,
    and the first day on which the cumulative sum is at least 500. *)
Lemma raw_crossing_date_Some (D : Z) :
  nonneg_totals convs → raw_crossing_date convs cid act = Some D →
  act ≤ D ≤ act + 60 ∧ first_crossing (cumulative convs cid act) 500 D.
Proof.
  intros Hnn Hraw. unfold raw_crossing_date in Hraw.
  apply sql_min_Some in Hraw as [Hin Hmin].
  apply list_elem_of_fmap in Hin as ([D0 c] & HD & Hin). simpl in HD. subst D0.
  apply list_elem_of_filter in Hin as [Hc Hin]. simpl in Hc.
  pose proof (elem_of_CumulativeConversations _ _ Hin) as Hrange.
  split; [done|]. split.
  - rewrite <- period_upto by lia.
    pose proof (running_total_le_upto period 0 D c (period_nonneg Hnn)
                  period_sorted Hin). lia.
  - intros D' Hlt. rewrite <- period_upto by lia.
    pose proof (running_total_before period 0 D' period_sorted) as Hb.
    simpl in Hb. apply Hb; [lia|].
    intros D1 c1 Hin1 Hc1.
    assert (D ≤ D1); [|lia]. apply Hmin, list_elem_of_fmap.
    exists (D1, c1). split; [done|]. apply list_elem_of_filter. done.
Qed.

(** No running total reaches 500 when the whole period adds up to
    less, and none exists when the period has no rows. *)
Lemma crossed_nil :
  (∀ r, r ∈ convs → ¬ in_period cid act (act + 60) r)
  ∨ (nonneg_totals convs ∧ cumulative convs cid act (act + 60) < 500) →
  crossed convs cid act (act + 60) = [].
Proof.
  intros Hcase. apply elem_of_nil_inv. intros [D c] Hin.
  apply list_elem_of_filter in Hin as [Hc Hin]. simpl in Hc.
  destruct Hcase as [Hnone|[Hnn Hsum]].
  - apply running_total_date in Hin as (r & Hr & _).
    rewrite merge_sort_Permutation in Hr.
    apply list_elem_of_filter in Hr as [Hp Hr]. by apply (Hnone r).
  - pose proof (running_total_le_sum period 0 D c (period_nonneg Hnn) Hin) as Hle.
    assert (Heq : sumZ (total <$> period) = cumulative convs cid act (act + 60)).
    { unfold cumulative, period_rows.
      apply sumZ_Permutation, fmap_Permutation, merge_sort_Permutation. }
    lia.
Qed.

(** Without a running total of at least 500, the sum of the period
    stays below 500 up to every day. *)
Lemma raw_crossing_date_None_below (D : Z) :
  raw_crossing_date convs cid act = None → D ≤ act + 60 →
  cumulative convs cid act D < 500.
Proof.
  intros Hraw HD. unfold raw_crossing_date in Hraw. apply sql_min_None in Hraw.
  apply fmap_nil_inv in Hraw.
  rewrite <- period_upto by done.
  pose proof (running_total_before period 0 D period_sorted) as Hb.
  simpl in Hb. apply Hb; [lia|].
  intros D1 c1 Hin1 Hc1. exfalso.
  assert (Hin : (D1, c1) ∈ crossed convs cid act (act + 60))
    by (by apply list_elem_of_filter).
  rewrite Hraw in Hin. by apply elem_of_nil in Hin.
Qed.

Lemma raw_crossing_date_iff (D : Z) :
  nonneg_totals convs →
  raw_crossing_date convs cid act = Some D
  ↔ act ≤ D ≤ act + 60 ∧ first_crossing (cumulative convs cid act) 500 D.
Proof.
  intros Hnn. split; [by apply raw_crossing_date_Some|].
  intros [Hrange [Hge Hbefore]].
  destruct (raw_crossing_date convs cid act) as [D0|] eqn:Hraw.
  - destruct (raw_crossing_date_Some D0 Hnn Hraw) as [_ [Hge0 Hbefore0]].
    f_equal. destruct (Z.lt_trichotomy D0 D) as [Hlt|[->|Hlt]]; [|done|].
    + specialize (Hbefore _ Hlt). lia.
    + specialize (Hbefore0 _ Hlt). lia.
  - pose proof (raw_crossing_date_None_below D Hraw) as Hlow. lia.
Qed.

Lemma raw_crossing_date_None :
  nonneg_totals convs →
  raw_crossing_date convs cid act = None
  ↔ ∀ D, D ≤ act + 60 → cumulative convs cid act D < 500.
Proof.
  intros Hnn. split.
  - intros Hraw D HD. by apply raw_crossing_date_None_below.
  - intros Hlow. destruct (raw_crossing_date convs cid act) as [D0|] eqn:Hraw; [|done].
    destruct (raw_crossing_date_Some D0 Hnn Hraw) as [Hrange [Hge _]].
    specialize (Hlow D0). lia.
Qed.

End one_company.

Section batch.
Variable convs : list conversation.

Lemma iterrows_Ok (rows : list company_row) (i : nat) (acc res : list success_row) :
  iterrows convs i rows acc = Ok res →
  ∃ rs, res = acc ++ rs ∧ length rs = length rows
        ∧ ∀ k row, rows !! k = Some row →
            ∃ act days, activation_date row = Some act
                        ∧ adjust !! (i + k)%nat = Some days
                        ∧ rs !! k = Some (result_row convs row act days).
Proof.
  revert i acc. induction rows as [|row rest IH]; intros i acc; simpl.
  - intros [= <-]. exists []. rewrite app_nil_r. done.
  - unfold index. destruct (adjust !! i) as [days|] eqn:Hdays; [|done]. simpl.
    destruct (activation_date row) as [act|] eqn:Hact; [|done]. simpl.
    intros Hrest. apply IH in Hrest as (rs & -> & Hlen & Hk).
    exists (result_row convs row act days :: rs).
    split; [by rewrite <- app_assoc|]. split; [simpl; lia|].
    intros [|k] row' Hrow'; simpl in Hrow'.
    + injection Hrow' as <-. exists act, days.
      rewrite Nat.add_0_r. done.
    + destruct (Hk k row' Hrow') as (act' & days' & ? & Hd & ?).
      exists act', days'. replace (i + S k)%nat with (S i + k)%nat by lia. done.
Qed.

Lemma fetch_Some (df : list company_row) (results : list success_row) :
  fetch_successful_conversations df convs = Some results →
  iterrows convs 0 df [] = Ok results ∧ results ≠ [].
Proof.
  unfold fetch_successful_conversations.
  destruct (iterrows convs 0 df []) as [res|e]; simpl; [|done].
  destruct res as [|r res]; simpl; [done|]. intros [= <-]. done.
Qed.

Lemma fetch_row (df : list company_row) (results : list success_row)
    (idx : nat) (row : company_row) :
  fetch_successful_conversations df convs = Some results →
  df !! idx = Some row →
  ∃ act days, activation_date row = Some act ∧ adjust !! idx = Some days
              ∧ results !! idx = Some (result_row convs row act days).
Proof.
  intros Hfetch Hrow. apply fetch_Some in Hfetch as [Hit _].
  apply iterrows_Ok in Hit as (rs & -> & _ & Hk). simpl.
  destruct (Hk _ _ Hrow) as (act & days & ? & ? & ?). exists act, days. done.
Qed.

Lemma adjust_lookup (i : nat) :
  (i < 4)%nat → ∃ days, adjust !! i = Some days.
Proof.
  intros Hi. do 4 (destruct i as [|i]; [simpl; eauto|]). lia.
Qed.

(** From row number [i ≤ 4] on, more rows than corrections left end
    the loop in an exception. *)
Lemma iterrows_too_long (rows : list company_row) (i : nat) (acc : list success_row) :
  (i ≤ 4)%nat → (4 < i + length rows)%nat →
  ∃ e, iterrows convs i rows acc = Raise e.
Proof.
  revert i acc. induction rows as [|row rest IH]; intros i acc Hi Hlen; simpl in *.
  - lia.
  - destruct (decide (i = 4%nat)) as [->|Hne]; [by exists IndexError|].
    destruct (adjust_lookup i) as [days Hdays]; [lia|].
    unfold index. rewrite Hdays. simpl.
    destruct (activation_date row) as [act|]; simpl; [|by exists DatabaseError].
    apply IH; lia.
Qed.

(** When every row has its activation date, that exception is the
    [IndexError] of [adjust[idx]] at row number 4. *)
Lemma iterrows_IndexError (rows : list company_row) (i : nat) (acc : list success_row) :
  Forall (fun row => is_Some (activation_date row)) rows →
  (i ≤ 4)%nat → (4 < i + length rows)%nat →
  iterrows convs i rows acc = Raise IndexError.
Proof.
  intros Hall. revert i acc.
  induction Hall as [|row rest [act Hact] Hall IH]; intros i acc Hi Hlen; simpl in *.
  - lia.
  - destruct (decide (i = 4%nat)) as [->|Hne]; [done|].
    destruct (adjust_lookup i) as [days Hdays]; [lia|].
    unfold index. rewrite Hdays, Hact. simpl. apply IH; lia.
Qed.

End batch.

(** C3.  In a batch that [fetch_successful_conversations] returns, the
    row at position [idx] carries the company of that position and, as
    its success date, the earliest day of a running total of at least
    500 plus the entry of [adjust] at [idx]; the list of corrections is
    [0, -25, 65, 165].  With totals that are counts, that earliest day
    is the first day of the period of 60 days on which the sum of the
    successful totals since the activation date is at least 500: the
    success date is [S] exactly when [S - adjust[idx]] is that day, and
    it is missing exactly when the sum stays below 500 over the
    period. *)
Theorem success_date_applies_adjust (convs : list conversation)
    (df : list company_row) (results : list success_row)
    (idx : nat) (row : company_row) :
  fetch_successful_conversations df convs = Some results →
  df !! idx = Some row →
  adjust = [0; -25; 65; 165]
  ∧ ∃ act days res,
      activation_date row = Some act ∧ adjust !! idx = Some days
      ∧ results !! idx = Some res
      ∧ sr_company_id res = company_id row
      ∧ success_date res
        = (fun D => D + days) <$> raw_crossing_date convs (company_id row) act
      ∧ (nonneg_totals convs →
         (∀ S, success_date res = Some S ↔
               act ≤ S - days ≤ act + 60
               ∧ first_crossing (cumulative convs (company_id row) act) 500 (S - days))
         ∧ (success_date res = None ↔
            ∀ D, D ≤ act + 60 → cumulative convs (company_id row) act D < 500)).
Proof.
  intros Hfetch Hrow. split; [done|].
  destruct (fetch_row convs df results idx row Hfetch Hrow)
    as (act & days & Hact & Hdays & Hres).
  exists act, days, (result_row convs row act days).
  do 4 (split; [done|]). split; [done|]. intros Hnn.
  unfold result_row, success_query. cbv zeta. cbn [success_date fst].
  fold (raw_crossing_date convs (company_id row) act). split.
  - intros S. rewrite <- (raw_crossing_date_iff convs (company_id row) act _ Hnn).
    destruct (raw_crossing_date convs (company_id row) act) as [D|]; simpl.
    + split; intros [= HS]; f_equal; lia.
    + split; intros [= HS].
  - rewrite <- (raw_crossing_date_None convs (company_id row) act Hnn).
    destruct (raw_crossing_date convs (company_id row) act) as [D|]; simpl; done.
Qed.

(** C2, amended.  With totals that are counts: when a success date [S]
    is reported for the company at position [idx], the day before the
    correction, [S - adjust[idx]], lies between the activation date and
    60 days after it, and it is the first day on which the sum of the
    successful totals since the activation date is at least 500.  At
    position 0, where the correction is 0, this day is [S] itself. *)
Theorem raw_success_date_in_horizon (convs : list conversation)
    (df : list company_row) (results : list success_row)
    (idx : nat) (row : company_row) (res : success_row) (S : Z) :
  nonneg_totals convs →
  fetch_successful_conversations df convs = Some results →
  df !! idx = Some row → results !! idx = Some res →
  success_date res = Some S →
  ∃ act days,
    activation_date row = Some act ∧ adjust !! idx = Some days
    ∧ act ≤ S - days ≤ act + 60
    ∧ first_crossing (cumulative convs (company_id row) act) 500 (S - days)
    ∧ (idx = 0%nat → act ≤ S ≤ act + 60).
Proof.
  intros Hnn Hfetch Hrow Hres HS.
  destruct (fetch_row convs df results idx row Hfetch Hrow)
    as (act & days & Hact & Hdays & Hres').
  rewrite Hres in Hres'. injection Hres' as ->. simpl in HS.
  exists act, days. split; [done|]. split; [done|].
  fold (raw_crossing_date convs (company_id row) act) in HS.
  destruct (raw_crossing_date convs (company_id row) act) as [D|] eqn:Hraw; [|done].
  simpl in HS. injection HS as <-.
  replace (D + days - days) with D by lia.
  destruct (raw_crossing_date_Some _ _ _ _ Hnn Hraw) as [Hrange Hfirst].
  split; [done|]. split; [done|].
  intros ->. simpl in Hdays. injection Hdays as <-. lia.
Qed.

(** C6, amended.  For a company of a batch that
    [fetch_successful_conversations] returns, whose period of 60 days
    has no successful row, or (totals being counts) adds up to less than
    500: the query gives a missing success date and a missing
    cumulative total, never 0; the batch carries exactly this row; and
    the year filter of [main] and [determine_successful_companies] leave
    the row out. *)
Theorem absent_success_date (convs : list conversation)
    (df : list company_row) (results : list success_row)
    (idx : nat) (row : company_row) (act : Z) :
  fetch_successful_conversations df convs = Some results →
  df !! idx = Some row → activation_date row = Some act →
  (∀ r, r ∈ convs → ¬ in_period (company_id row) act (act + 60) r)
  ∨ (nonneg_totals convs ∧ cumulative convs (company_id row) act (act + 60) < 500) →
  (∀ days, success_query convs (company_id row) act (act + 60) days = (None, None))
  ∧ results !! idx = Some (mk_success_row None None (company_id row))
  ∧ (mk_success_row None None (company_id row) ∉ df_2023 results)
  ∧ (mk_success_row None None (company_id row)
     ∉ determine_successful_companies results).
Proof.
  intros Hfetch Hrow Hact Hcase.
  assert (Hq : ∀ days, success_query convs (company_id row) act (act + 60) days
                       = (None, None)).
  { intros days. unfold success_query. by rewrite (crossed_nil _ _ _ Hcase). }
  split; [done|]. split.
  - destruct (fetch_row convs df results idx row Hfetch Hrow)
      as (act' & days & Hact' & _ & Hres).
    rewrite Hact in Hact'. injection Hact' as <-.
    rewrite Hres. unfold result_row. by rewrite Hq.
  - split.
    + unfold df_2023. intros Hin. apply list_elem_of_filter in Hin as [Hy _]. done.
    + unfold determine_successful_companies. intros Hin.
      apply list_elem_of_filter in Hin as [Hc _]. done.
Qed.

(** C9.  The list of corrections has 4 entries; a batch of more than 4
    companies makes [fetch_successful_conversations] return [None], no
    row at all; and when every company of the batch has an activation
    date from which the dates of the loop stay within the days that
    Python holds, the exception behind it is the [IndexError] of
    [adjust[idx]]. *)
Theorem adjust_out_of_bounds (convs : list conversation) (df : list company_row) :
  (4 < length df)%nat →
  length adjust = 4%nat
  ∧ fetch_successful_conversations df convs = None
  ∧ (Forall (fun row => ∃ act, activation_date row = Some act ∧ safe_activation act) df →
     success_dates_body df convs = Raise IndexError).
Proof.
  intros Hlen. split; [done|]. split.
  - unfold fetch_successful_conversations.
    destruct (iterrows_too_long convs df 0 []) as [e ->]; [lia | simpl; lia | done].
  - intros Hall. unfold success_dates_body.
    rewrite (iterrows_IndexError convs df 0 []); [done | | lia | simpl; lia].
    eapply Forall_impl; [exact Hall|]. intros row (act & -> & _). by eexists.
Qed.

End Script1_success.

(** ** 2_script.py: the window of the recently closed companies *)

Module Script2_window.
Import Calendar Script2.

Lemma last_day_of_month_days_in_month (year month : Z) :
  1 ≤ month ≤ 12 → last_day_of_month year month = days_in_month year month.
Proof.
  intros Hm. unfold last_day_of_month, days_in_month, is_leap.
  assert (Hcases : month = 1 ∨ month = 2 ∨ month = 3 ∨ month = 4 ∨ month = 5
                   ∨ month = 6 ∨ month = 7 ∨ month = 8 ∨ month = 9
                   ∨ month = 10 ∨ month = 11 ∨ month = 12) by lia.
  destruct Hcases as [->|[->|[->|[->|[->|[->|[->|[->|[->|[->|[->| ->]]]]]]]]]]];
    try reflexivity.
  simpl. case_decide as Hleap.
  - destruct Hleap as [[H4 H100]| H400].
    + apply Z.eqb_eq in H4. apply Z.eqb_neq in H100. by rewrite H4, H100.
    + assert (H4 : year mod 4 = 0).
      { rewrite <- (Z.mod_mod_divide year 400 4) by (exists 100; lia). by rewrite H400. }
      apply Z.eqb_eq in H4. apply Z.eqb_eq in H400. rewrite H4, H400.
      by destruct (year mod 100 =? 0).
  - destruct (year mod 4 =? 0) eqn:H4; [|done].
    destruct (year mod 100 =? 0) eqn:H100; simpl.
    + destruct (year mod 400 =? 0) eqn:H400; [|done].
      apply Z.eqb_eq in H400. exfalso. apply Hleap. by right.
    + apply Z.eqb_eq in H4. apply Z.eqb_neq in H100. exfalso. apply Hleap. by left.
Qed.

Lemma cycle_check_true : cycle_check = true.
Proof. vm_compute. reflexivity. Qed.

Lemma month_end_in_cycle (y m : Z) :
  cycle_check = true → 1 ≤ y ≤ 400 → 1 ≤ m ≤ 12 → month_end y m.
Proof.
  unfold cycle_check. intros Hgrid Hy Hm. rewrite forallb_forall in Hgrid.
  assert (Hyear : In y (seqZ 1 400)) by (apply list_elem_of_In, elem_of_seqZ; lia).
  specialize (Hgrid _ Hyear). rewrite forallb_forall in Hgrid.
  assert (Hmonth : In m (seqZ 1 12)) by (apply list_elem_of_In, elem_of_seqZ; lia).
  specialize (Hgrid _ Hmonth). by apply bool_decide_eq_true in Hgrid.
Qed.

(** The calendar repeats every 400 years, which are 146097 days. *)
Lemma is_leap_shift (y k : Z) : is_leap (y + 400 * k) = is_leap y.
Proof.
  unfold is_leap.
  replace ((y + 400 * k) mod 4) with (y mod 4)
    by (replace (400 * k) with (100 * k * 4) by lia; by rewrite Z.mod_add).
  replace ((y + 400 * k) mod 100) with (y mod 100)
    by (replace (400 * k) with (4 * k * 100) by lia; by rewrite Z.mod_add).
  replace ((y + 400 * k) mod 400) with (y mod 400)
    by (replace (400 * k) with (k * 400) by lia; by rewrite Z.mod_add).
  done.
Qed.

Lemma days_before_year_shift (y k : Z) :
  days_before_year (y + 400 * k) = days_before_year y + 146097 * k.
Proof.
  unfold days_before_year. cbv zeta.
  replace ((y + 400 * k - 1) / 4) with ((y - 1) / 4 + 100 * k)
    by (replace (y + 400 * k - 1) with (y - 1 + 100 * k * 4) by lia;
        by rewrite Z.div_add).
  replace ((y + 400 * k - 1) / 100) with ((y - 1) / 100 + 4 * k)
    by (replace (y + 400 * k - 1) with (y - 1 + 4 * k * 100) by lia;
        by rewrite Z.div_add).
  replace ((y + 400 * k - 1) / 400) with ((y - 1) / 400 + k)
    by (replace (y + 400 * k - 1) with (y - 1 + k * 400) by lia;
        by rewrite Z.div_add).
  lia.
Qed.

Lemma days_in_month_shift (y m k : Z) :
  days_in_month (y + 400 * k) m = days_in_month y m.
Proof. unfold days_in_month. by rewrite is_leap_shift. Qed.

Lemma ymd2ord_shift (y m d k : Z) :
  ymd2ord (y + 400 * k) m d = ymd2ord y m d + 146097 * k.
Proof.
  unfold ymd2ord, days_before_month.
  rewrite days_before_year_shift, is_leap_shift. lia.
Qed.

Lemma toordinal_shift (t : datetime) (k : Z) :
  toordinal (shift_years k t) = toordinal t + 146097 * k.
Proof. unfold toordinal, shift_years. simpl. apply ymd2ord_shift. Qed.

Lemma day_shift (t : datetime) (k : Z) : day (shift_years k t) = day t.
Proof. done. Qed.

Lemma ord2ymd_shift (n k : Z) :
  ord2ymd (n + 146097 * k) = shift_years k (ord2ymd n).
Proof.
  unfold ord2ymd, DI400Y. cbv zeta.
  replace ((n + 146097 * k - 1) / 146097) with ((n - 1) / 146097 + k)
    by (replace (n + 146097 * k - 1) with (n - 1 + k * 146097) by lia;
        by rewrite Z.div_add).
  replace ((n + 146097 * k - 1) mod 146097) with ((n - 1) mod 146097)
    by (replace (n + 146097 * k - 1) with (n - 1 + k * 146097) by lia;
        by rewrite Z.mod_add).
  repeat match goal with
         | |- context [if ?b then _ else _] => destruct b
         end; unfold shift_years; simpl; f_equal; lia.
Qed.

Lemma days_in_month_bounds (y m : Z) : 1 ≤ m ≤ 12 → 28 ≤ days_in_month y m ≤ 31.
Proof.
  intros Hm. unfold days_in_month.
  assert (Hcases : m = 1 ∨ m = 2 ∨ m = 3 ∨ m = 4 ∨ m = 5 ∨ m = 6 ∨ m = 7 ∨ m = 8
                   ∨ m = 9 ∨ m = 10 ∨ m = 11 ∨ m = 12) by lia.
  destruct Hcases as [->|[->|[->|[->|[->|[->|[->|[->|[->|[->|[->| ->]]]]]]]]]]];
    destruct (is_leap y); split; by vm_compute.
Qed.

Lemma days_before_month_bounds (y m : Z) :
  1 ≤ m ≤ 12 →
  0 ≤ days_before_month y m ≤ 335 ∧ (m ≤ 11 → days_before_month y m ≤ 305).
Proof.
  intros Hm. unfold days_before_month.
  assert (Hcases : m = 1 ∨ m = 2 ∨ m = 3 ∨ m = 4 ∨ m = 5 ∨ m = 6 ∨ m = 7 ∨ m = 8
                   ∨ m = 9 ∨ m = 10 ∨ m = 11 ∨ m = 12) by lia.
  destruct Hcases as [->|[->|[->|[->|[->|[->|[->|[->|[->|[->|[->| ->]]]]]]]]]]];
    destruct (is_leap y); (split; [split|intros ?]); by vm_compute.
Qed.

Lemma new_valid (y m d : Z) :
  MINYEAR ≤ y ≤ MAXYEAR → 1 ≤ m ≤ 12 → 1 ≤ d ≤ days_in_month y m →
  new y m d = Ok (mk_datetime y m d).
Proof.
  intros Hy Hm Hd. unfold new.
  pose proof (days_in_month_bounds y m Hm) as Hdim.
  rewrite decide_True
    by (unfold c_int, INT_MIN, INT_MAX, MINYEAR, MAXYEAR in *; lia).
  assert (Hc : (MINYEAR <=? y) && (y <=? MAXYEAR) && (1 <=? m) && (m <=? 12)
               && (1 <=? d) && (d <=? days_in_month y m) = true).
  { rewrite !andb_true_iff, !Z.leb_le. lia. }
  by rewrite Hc.
Qed.

Lemma add_days_valid (t : datetime) (k : Z) :
  0 < toordinal t + k ≤ MAXORDINAL → add_days t k = Ok (ord2ymd (toordinal t + k)).
Proof.
  intros Hn. unfold add_days. cbv zeta.
  assert (Hc : (0 <? toordinal t + k) && (toordinal t + k <=? MAXORDINAL) = true).
  { rewrite andb_true_iff, Z.ltb_lt, Z.leb_le. lia. }
  by rewrite Hc.
Qed.

(** The ordinal of the first of a month plus 31 stays in range for every
    supported request. *)
Lemma first_plus_31_bounds (month year : Z) :
  supported month year →
  32 ≤ ymd2ord year month 1 + 31 ≤ MAXORDINAL.
Proof.
  intros (Hm & Hy & _ & Hhi). unfold ymd2ord, days_before_year, MAXORDINAL.
  unfold MINYEAR, MAXYEAR in *. cbv zeta.
  destruct (days_before_month_bounds year month Hm) as [Hb Hb11].
  destruct (decide (month = 12)) as [->|Hne].
  - assert (year ≤ 9998) by lia. Z.div_mod_to_equations. lia.
  - assert (month ≤ 11) by lia. specialize (Hb11 ltac:(lia)).
    Z.div_mod_to_equations. lia.
Qed.

Lemma bind_Ok {A B} (a : A) (k : A → outcome B) : (Ok a ≫= k) = k a.
Proof. done. Qed.

Lemma date_range_supported (month year : Z) :
  supported month year → date_range month year = Ok (two_month_range month year).
Proof.
  intros Hs. pose proof Hs as (Hm & Hy & Hlo & Hhi).
  pose proof (first_plus_31_bounds _ _ Hs) as Hn.
  set (y0 := (year - 1) mod 400 + 1). set (k := (year - 1) / 400).
  assert (Hyear : year = y0 + 400 * k)
    by (unfold y0, k; Z.div_mod_to_equations; lia).
  assert (Hy0 : 1 ≤ y0 ≤ 400) by (unfold y0; Z.div_mod_to_equations; lia).
  destruct (month_end_in_cycle y0 month cycle_check_true Hy0 Hm)
    as (Hround & Hday & Hback).
  set (n0 := ymd2ord y0 month 1 + 31) in *.
  assert (Hn0 : ymd2ord year month 1 + 31 = n0 + 146097 * k).
  { unfold n0. rewrite Hyear, ymd2ord_shift. lia. }
  pose proof (days_in_month_bounds year month Hm) as Hdim.
  unfold date_range.
  assert (Hstart : (if decide (month ≠ 1) then new year (month - 1) 1
                    else new (year - 1) 12 1)
                   = Ok (two_month_range month year).1).
  { unfold two_month_range, preceding_month. simpl.
    unfold MINYEAR, MAXYEAR in *.
    destruct (decide (month = 1)) as [->|Hne].
    - rewrite decide_False by (intros ?; done). cbn [fst snd].
      apply new_valid; [unfold MINYEAR, MAXYEAR; lia | lia |].
      pose proof (days_in_month_bounds (year - 1) 12). lia.
    - rewrite decide_True by done. cbn [fst snd].
      apply new_valid; [unfold MINYEAR, MAXYEAR; lia | lia |].
      pose proof (days_in_month_bounds year (month - 1)). lia. }
  rewrite Hstart, bind_Ok.
  rewrite (new_valid year month 1) by (try done; lia). rewrite bind_Ok.
  assert (Hfirst : toordinal (mk_datetime year month 1) + 31 = n0 + 146097 * k)
    by exact Hn0.
  rewrite add_days_valid by (rewrite Hfirst, <- Hn0; lia).
  rewrite bind_Ok, Hfirst, ord2ymd_shift.
  assert (Hback' : toordinal (shift_years k (ord2ymd n0))
                   + - day (shift_years k (ord2ymd n0))
                   = n0 - day (ord2ymd n0) + 146097 * k).
  { rewrite toordinal_shift, Hround, day_shift. lia. }
  rewrite add_days_valid by (rewrite Hback'; unfold MAXORDINAL in *; lia).
  rewrite bind_Ok, Hback', ord2ymd_shift, day_shift, Hback.
  rewrite <- (days_in_month_shift y0 month k), <- Hyear.
  rewrite Z.min_r by lia.
  rewrite new_valid by (try done; lia). rewrite bind_Ok.
  unfold two_month_range. cbn [fst snd].
  by rewrite (last_day_of_month_days_in_month year month Hm).
Qed.

(** The two requests left out raise. *)
Lemma date_range_unsupported :
  date_range 1 MINYEAR = Raise ValueError
  ∧ date_range 12 MAXYEAR = Raise OverflowError.
Proof. split; by vm_compute. Qed.

(** A valid close date is in the range exactly when it falls in the
    requested month or in the one before it. *)
Lemma between_two_months (month year : Z) (c : company) (t : datetime) :
  1 ≤ month ≤ 12 → close_date c = Some t → valid t →
  between (two_month_range month year).1 (two_month_range month year).2 c
  ↔ closed_in_month month year t
    ∨ closed_in_month (preceding_month month year).2 (preceding_month month year).1 t.
Proof.
  intros Hm Hc (Hy & Htm & Htd). unfold between. rewrite Hc.
  unfold closed_in_month, two_month_range, preceding_month, leb.
  destruct t as [ty tm td]. cbn [Calendar.year Calendar.month Calendar.day] in *.
  case_decide as H1; cbn [fst snd Calendar.year Calendar.month Calendar.day];
    rewrite !orb_true_iff, !andb_true_iff, !orb_true_iff, !andb_true_iff,
      !Z.ltb_lt, !Z.eqb_eq, !Z.leb_le.
  - subst month. split.
    + intros [Hlo Hhi]. lia.
    + intros [[-> ->]|[-> ->]].
      * rewrite last_day_of_month_days_in_month by lia. lia.
      * lia.
  - split.
    + intros [Hlo Hhi]. lia.
    + intros [[-> ->]|[-> ->]].
      * rewrite last_day_of_month_days_in_month by lia. lia.
      * lia.
Qed.

Lemma selected_two_months (d : database) (month year : Z) (c : company) (t : datetime) :
  supported month year → c ∈ company_table d → close_date c = Some t → valid t →
  closed_in_month month year t
  ∨ closed_in_month (preceding_month month year).2 (preceding_month month year).1 t →
  selected d month year c.
Proof.
  intros Hs Hc Ht Hv Hin. pose proof Hs as (Hm & _).
  unfold selected, get_recently_closed_companies.
  rewrite (date_range_supported _ _ Hs). eexists. split; [done|].
  apply list_elem_of_fmap. exists c. split; [done|].
  apply list_elem_of_filter. split; [|done].
  by apply (between_two_months month year c t Hm Ht Hv).
Qed.

Lemma preceding_following (month year : Z) :
  1 ≤ month ≤ 12 →
  preceding_month (following_month month year).2 (following_month month year).1
  = (year, month).
Proof.
  intros Hm. unfold preceding_month, following_month.
  repeat (case_decide; simpl in *); try lia; f_equal; lia.
Qed.

(** C10.  For a request that [datetime] supports: the range of
    [get_recently_closed_companies] starts on the first day of the
    preceding month (December of the year before for January) and ends
    on the last day of the requested month (28, 29, 30 or 31); the
    companies selected are those closed in either of the two months; so
    a company closed in the requested month is selected for it and,
    again, for the month that follows. *)
Theorem recently_closed_window (d : database) (month year : Z) :
  supported month year →
  date_range month year = Ok (two_month_range month year)
  ∧ get_recently_closed_companies d month year
    = Ok ((fun c => (id c, name c))
          <$> filter (between (two_month_range month year).1
                        (two_month_range month year).2) (company_table d))
  ∧ (∀ c t, close_date c = Some t → valid t →
        between (two_month_range month year).1 (two_month_range month year).2 c
        ↔ closed_in_month month year t
          ∨ closed_in_month (preceding_month month year).2
              (preceding_month month year).1 t)
  ∧ (∀ c t, c ∈ company_table d → close_date c = Some t → valid t →
        closed_in_month month year t →
        selected d month year c
        ∧ (supported (following_month month year).2 (following_month month year).1 →
           selected d (following_month month year).2 (following_month month year).1 c)).
Proof.
  intros Hs. pose proof (date_range_supported _ _ Hs) as Hrange.
  pose proof Hs as (Hm & _).
  split; [done|]. split; [|split].
  - unfold get_recently_closed_companies. by rewrite Hrange.
  - intros c t. by apply between_two_months.
  - intros c t Hc Ht Hv Hin. split.
    + apply (selected_two_months d month year c t); auto.
    + intros Hs'. apply (selected_two_months d _ _ c t); auto.
      right. rewrite preceding_following by done. done.
Qed.

End Script2_window.

(** ** 2_script.py: the percentage of one month *)

Module Script2_percentage.
Import Calendar Script2.

Lemma percentage_of_empty : percentage_of ∅ = 0%float.
Proof. unfold percentage_of. by rewrite map_to_list_empty. Qed.

(** Companies of the dictionary: those with an account that has a row
    in the result of the second query. *)
Lemma elem_of_dom_map_to_company_ids (month : Z) (account_mapping sc : list (Z * Z))
    (k : Z) :
  k ∈ dom (map_to_company_ids month account_mapping sc) ↔
  ∃ a v, (k, a) ∈ account_mapping ∧ (a, v) ∈ sc.
Proof.
  unfold map_to_company_ids.
  assert (Hinner : ∀ (m : Z * Z) (l : list (Z * Z)) (result : gmap Z Z),
             k ∈ dom (foldl (fun result (s : Z * Z) =>
                               if decide (m.2 = s.1)
                               then <[ m.1 := s.2 + bonus_of month m.1 ]> result
                               else result) result l)
             ↔ k ∈ dom result ∨ (k = m.1 ∧ ∃ v, (m.2, v) ∈ l)).
  { intros m l. induction l as [|[a v] l IH]; intros result; simpl.
    - split; [by left|]. intros [?|[_ [v Hv]]]; [done | by apply elem_of_nil in Hv].
    - rewrite IH. case_decide as Ha; simpl in Ha.
      + rewrite dom_insert_L, elem_of_union, elem_of_singleton. split.
        * intros [[->|?]|(-> & v' & Hv')].
          -- right. split; [done|]. exists v. rewrite Ha. left.
          -- by left.
          -- right. split; [done|]. exists v'. by right.
        * intros [?|(-> & v' & Hv')]; [left; by right|].
          apply elem_of_cons in Hv' as [[= _ ->]|Hv'].
          -- left. by left.
          -- right. split; [done | by exists v'].
      + split.
        * intros [?|(-> & v' & Hv')]; [by left|].
          right. split; [done|]. exists v'. by right.
        * intros [?|(-> & v' & Hv')]; [by left|].
          apply elem_of_cons in Hv' as [[= ? _]|Hv']; [done|].
          right. split; [done | by exists v']. }
  assert (Houter : ∀ (am : list (Z * Z)) (result : gmap Z Z),
             k ∈ dom (foldl (fun result (m : Z * Z) =>
                               foldl (fun result (s : Z * Z) =>
                                        if decide (m.2 = s.1)
                                        then <[ m.1 := s.2 + bonus_of month m.1 ]> result
                                        else result) result sc) result am)
             ↔ k ∈ dom result ∨ ∃ a v, (k, a) ∈ am ∧ (a, v) ∈ sc).
  { intros am. induction am as [|[c a] am IH]; intros result; cbn [foldl].
    - split; [by left|]. intros [?|(a & v & Hk & _)]; [done | by apply elem_of_nil in Hk].
    - rewrite IH, Hinner. simpl. split.
      + intros [[?|(-> & v & Hv)]|(a' & v & Hk & Hv)].
        * by left.
        * right. exists a, v. split; [left | done].
        * right. exists a', v. split; [by right | done].
      + intros [?|(a' & v & Hk & Hv)]; [left; by left|].
        apply elem_of_cons in Hk as [[= -> ->]|Hk].
        * left. right. split; [done | by exists v].
        * right. by exists a', v. }
  rewrite Houter, dom_empty_L. split; [intros [?|?]; [set_solver | done] | by right].
Qed.

(** Without closed companies the guard answers, and the month counts 0. *)
Lemma no_company_ids (d : database) (month year : Z) :
  get_successful_conversations_for_companies d [] month year = Ok ∅.
Proof. done. Qed.

(** With closed companies, none of which has a row in
    [company_identifiers], the second query gets an empty tuple. *)
Lemma unmapped_company_ids (d : database) (company_ids : list Z) (month year : Z) :
  company_ids ≠ [] →
  (∀ i, i ∈ company_identifiers d → ci_company_id i ∉ company_ids) →
  get_successful_conversations_for_companies d company_ids month year
  = Raise ProgrammingError.
Proof.
  intros Hne Hnone. unfold get_successful_conversations_for_companies.
  case_decide; [done|]. destruct company_ids as [|c ids]; [done|]. simpl.
  assert (Hnil : filter (in_ids (c :: ids)) (company_identifiers d) = []).
  { apply elem_of_nil_inv. intros i Hi. apply list_elem_of_filter in Hi as [Hin Hi].
    by apply (Hnone i Hi). }
  by rewrite Hnil.
Qed.

(** C4, at a month that has a closed company and no company with a
    matched conversation: instead of counting 0, the turn of the loop,
    and with it [main], ends in the exception of the second query; a
    month without closed companies counts 0. *)
Theorem unmapped_month_raises :
  get_recently_closed_companies Fixtures.unmapped_db 4 2023 = Ok [(3, "c"%string)]
  ∧ month_percentage Fixtures.unmapped_db 4 2023 = Raise ProgrammingError
  ∧ month_percentage Fixtures.unmapped_db 1 2023 = Ok 0%float
  ∧ main Fixtures.unmapped_db = Raise ProgrammingError.
Proof. repeat split; by vm_compute. Qed.

End Script2_percentage.

(** ** 3_script.py: the cohort frames *)

Module Script3_cohorts.
Import Calendar Script3.

Lemma mock_data_lookup (c : Z) :
  default [] (mock_data !! c)
  = if decide (c = 1) then [292; 644; 621; 317; 649; 556; 328; 536]
    else if decide (c = 2) then [754; 317; 307; 187; 228; 57; 95]
    else if decide (c = 3) then [51; 693; 173; 99; 356; 378]
    else if decide (c = 4) then [206; 278; 79; 52; 85]
    else if decide (c = 5) then [69; 63; 56; 85]
    else if decide (c = 6) then [404; 160; 329]
    else if decide (c = 7) then [276; 119]
    else if decide (c = 8) then [293]
    else [].
Proof.
  repeat (case_decide; [by subst|]).
  unfold mock_data. rewrite !lookup_insert_ne by done.
  by rewrite lookup_singleton_ne.
Qed.

Lemma mock_data_length (c : Z) :
  Z.of_nat (length (default [] (mock_data !! c)))
  = if decide (1 ≤ c ≤ 8) then 9 - c else 0.
Proof.
  rewrite mock_data_lookup.
  repeat match goal with
         | |- context [decide (c = ?k)] =>
             destruct (decide (c = k)) as [->|?]; [case_decide; [reflexivity | lia]|]
         end.
  case_decide; [lia | done].
Qed.

Lemma mock_data_positive (c : Z) : Forall (fun v => 0 < v) (default [] (mock_data !! c)).
Proof.
  rewrite mock_data_lookup.
  repeat (case_decide; [repeat (constructor; [lia|]); constructor|]). constructor.
Qed.

Lemma get_mock_revenue_None (c i : Z) :
  get_mock_revenue c i = None ↔ ¬ (1 ≤ c ≤ 8 ∧ 1 ≤ i ≤ 9 - c).
Proof.
  unfold get_mock_revenue. generalize (mock_data_length c).
  case_decide as Hc; intros Hlen; case_decide as Hi.
  - split; [|lia]. intros Hnone. apply lookup_ge_None in Hnone. lia.
  - split; [lia | done].
  - lia.
  - split; [lia | done].
Qed.

(** C8.  The mock revenue of cohort month 1 for the invoice months 1 to
    8 is, in this order, 292, 644, 621, 317, 649, 556, 328, 536; the
    lookup gives [None] exactly outside the table (a cohort month not in
    1..8, or an invoice month not between 1 and the length of the
    cohort's list), and it never gives 0. *)
Theorem get_mock_revenue_table :
  get_mock_revenue 1 <$> seqZ 1 8
  = Some <$> [292; 644; 621; 317; 649; 556; 328; 536]
  ∧ (∀ c i, get_mock_revenue c i = None ↔
            ¬ (1 ≤ i ≤ Z.of_nat (length (default [] (mock_data !! c)))))
  ∧ (∀ c i, get_mock_revenue c i = None ↔ ¬ (1 ≤ c ≤ 8 ∧ 1 ≤ i ≤ 9 - c))
  ∧ (∀ c i, get_mock_revenue c i ≠ Some 0).
Proof.
  split; [by vm_compute|]. split; [|split].
  - intros c i. rewrite get_mock_revenue_None, mock_data_length.
    case_decide; lia.
  - apply get_mock_revenue_None.
  - intros c i. unfold get_mock_revenue. case_decide; [|done].
    intros Hv. apply list_elem_of_lookup_2 in Hv.
    pose proof (mock_data_positive c) as Hpos. rewrite Forall_forall in Hpos.
    specialize (Hpos _ Hv). lia.
Qed.

Lemma elem_of_joined_invoices (d : database) (month : Z) (si : stripe_invoice) :
  si ∈ joined_invoices d month → sent_in month si.
Proof.
  unfold joined_invoices. intros Hsi.
  apply list_elem_of_bind in Hsi as (si' & Hsi & _).
  apply list_elem_of_bind in Hsi as (scim & Hsi & _).
  case_decide as Hd; [|by apply elem_of_nil in Hsi].
  apply list_elem_of_singleton in Hsi as ->. by destruct Hd.
Qed.

(** The live frame of cohort [month] has rows for invoice months from
    [month] to 8 only, each with a revenue. *)
Lemma elem_of_fetch_monthly_data (d : database) (month : Z) (row : cohort_row) :
  row ∈ fetch_monthly_data d month →
  cohort row = month ∧ month ≤ invoice_month row ≤ 8 ∧ is_Some (revenue row).
Proof.
  unfold fetch_monthly_data. intros Hrow.
  apply list_elem_of_fmap in Hrow as (m & -> & Hm). simpl.
  split; [done|]. split; [|by eexists].
  rewrite merge_sort_Permutation in Hm.
  apply elem_of_remove_dups, list_elem_of_fmap in Hm as ([[cid m'] amt] & -> & Hr).
  unfold InvoicesForCompaniesClosedInMonth in Hr.
  apply list_elem_of_fmap in Hr as ([cid' m''] & [= -> -> _] & Hk). simpl.
  apply elem_of_remove_dups, list_elem_of_fmap in Hk as (si & [= -> ->] & Hsi).
  apply elem_of_joined_invoices in Hsi as [_ ?]. done.
Qed.




End Script3_cohorts.

(** ** Examples on concrete databases *)

Module Examples1.
Import Script1 Script1_activation Script1_success Fixtures.

Ltac counts := unfold nonneg_totals; repeat (constructor; [simpl; lia|]); constructor.

Lemma activation_date_first_crossing_witness :
  activation_date boundary_row = Some 12 ↔
  first_crossing (trailing_3_day (conversations boundary_db) 1) 350 12.
Proof.
  destruct (activation_date_first_crossing boundary_db (companies_query boundary_db)
              boundary_row) as (_ & _ & _ & Hcounts);
    [reflexivity | vm_compute; left |].
  destruct Hcounts as [Hfirst _]; [counts|]. apply Hfirst.
Defined.

Lemma negative_daily (D : Z) :
  daily_sum (conversations MoreFixtures.negative_db) 1 D
  = if decide (D = 1) then -100 else if decide (D = 2) then 400 else 0.
Proof.
  destruct (decide (D = 1)) as [->|]; [done|].
  destruct (decide (D = 2)) as [->|]; [done|].
  unfold daily_sum, MoreFixtures.negative_db. simpl conversations.
  rewrite !filter_cons_False by (simpl; lia). done.
Qed.

(** C1 as stated fails when a total is negative: the sum of three days
    is first at least 350 on day 4, a day without rows, and the company
    is reported without an activation date. *)
Lemma negative_total_no_activation :
  fetch_companies_from_db MoreFixtures.negative_db = Some [mk_company_row 1 "n" None]
  ∧ first_crossing (trailing_3_day (conversations MoreFixtures.negative_db) 1) 350 4
  ∧ activation_date (mk_company_row 1 "n" None) ≠ Some 4.
Proof.
  split; [by vm_compute|]. split; [|done]. unfold first_crossing, trailing_3_day.
  split.
  - rewrite !negative_daily. repeat case_decide; lia.
  - intros D' Hlt. rewrite !negative_daily. repeat case_decide; lia.
Qed.

(** C6 as stated fails when the batch is not returned: company 1 has no
    successful conversation in its period, and it gets no row at all,
    since the missing activation date of company 2 ends the loop;
    [main] then stops with a [TypeError]. *)
Lemma absent_date_batch_not_returned :
  fetch_companies_from_db MoreFixtures.unreturned_db = Some MoreFixtures.unreturned_df
  ∧ (∀ r, r ∈ conversations MoreFixtures.unreturned_db →
          ¬ in_period 1 738600 (738600 + 60) r)
  ∧ fetch_successful_conversations MoreFixtures.unreturned_df
      (conversations MoreFixtures.unreturned_db) = None
  ∧ Script1_main.main MoreFixtures.unreturned_db = Script1_main.TypeError.
Proof.
  split; [by vm_compute|]. split; [|split; by vm_compute].
  intros r Hr (_ & Hs & _). apply list_elem_of_singleton in Hr as ->. done.
Qed.

Lemma scenario_daily (D : Z) :
  daily_sum (conversations scenario_db) 1 D
  = if bool_decide (1 ≤ D ≤ 4) then 100 else 0.
Proof.
  destruct (decide (D = 1)) as [->|]; [done|].
  destruct (decide (D = 2)) as [->|]; [done|].
  destruct (decide (D = 3)) as [->|]; [done|].
  destruct (decide (D = 4)) as [->|]; [done|].
  rewrite bool_decide_eq_false_2 by lia.
  unfold daily_sum, scenario_db. simpl conversations.
  rewrite !filter_cons_False by (simpl; lia). done.
Qed.

Lemma scenario_no_crossing_witness :
  activation_date scenario_row = None
  ∧ trailing_3_day (conversations scenario_db) 1 <$> [1; 2; 3; 4]
    = [100; 200; 300; 300].
Proof.
  apply (scenario_no_crossing scenario_db (companies_query scenario_db) scenario_row);
    [exact scenario_daily | reflexivity | vm_compute; left].
Defined.

(** C7 as stated fails: the entity of the scenario is reported without
    an activation date, not with day 3. *)
Lemma scenario_not_day_3 :
  fetch_companies_from_db scenario_db = Some [scenario_row]
  ∧ activation_date scenario_row ≠ Some 3.
Proof. split; [by vm_compute | done]. Qed.

Lemma success_date_applies_adjust_witness :
  adjust = [0; -25; 65; 165]
  ∧ ∃ act days res,
      activation_date (mk_company_row 2 "b" (Some 100)) = Some act
      ∧ adjust !! 1%nat = Some days
      ∧ success_results !! 1%nat = Some res
      ∧ sr_company_id res = 2
      ∧ success_date res
        = (fun D => D + days) <$> raw_crossing_date success_convs 2 act
      ∧ (nonneg_totals success_convs →
         (∀ S, success_date res = Some S ↔
               act ≤ S - days ≤ act + 60
               ∧ first_crossing (cumulative success_convs 2 act) 500 (S - days))
         ∧ (success_date res = None ↔
            ∀ D, D ≤ act + 60 → cumulative success_convs 2 act D < 500)).
Proof.
  apply (success_date_applies_adjust success_convs success_df success_results 1
           (mk_company_row 2 "b" (Some 100))); [by vm_compute | reflexivity].
Defined.

Lemma raw_success_date_in_horizon_witness :
  ∃ act days,
    activation_date (mk_company_row 2 "b" (Some 100)) = Some act
    ∧ adjust !! 1%nat = Some days
    ∧ act ≤ 75 - days ≤ act + 60
    ∧ first_crossing (cumulative success_convs 2 act) 500 (75 - days)
    ∧ (1%nat = 0%nat → act ≤ 75 ≤ act + 60).
Proof.
  apply (raw_success_date_in_horizon success_convs success_df success_results 1
           (mk_company_row 2 "b" (Some 100)) (mk_success_row (Some 75) (Some 500) 2) 75);
    [counts | by vm_compute | reflexivity | reflexivity | reflexivity].
Defined.

(** C2 as stated fails: the company at position 1 is activated on day
    100 and is reported with success date 75, before its period. *)
Lemma reported_date_outside_horizon :
  fetch_successful_conversations success_df success_convs = Some success_results
  ∧ success_df !! 1%nat = Some (mk_company_row 2 "b" (Some 100))
  ∧ success_results !! 1%nat = Some (mk_success_row (Some 75) (Some 500) 2)
  ∧ ¬ (100 ≤ 75 ≤ 100 + 60).
Proof. split; [by vm_compute|]. repeat split; try done. lia. Qed.

Lemma absent_success_date_witness :
  (∀ days, success_query success_convs 3 5 (5 + 60) days = (None, None))
  ∧ success_results !! 2%nat = Some (mk_success_row None None 3)
  ∧ (mk_success_row None None 3 ∉ df_2023 success_results)
  ∧ (mk_success_row None None 3 ∉ determine_successful_companies success_results).
Proof.
  apply (absent_success_date success_convs success_df success_results 2
           (mk_company_row 3 "c" (Some 5)) 5);
    [by vm_compute | reflexivity | reflexivity
    | right; split; [counts | by vm_compute]].
Defined.

Lemma adjust_out_of_bounds_witness :
  length adjust = 4%nat
  ∧ fetch_successful_conversations MoreFixtures.season_five_df
      MoreFixtures.season_convs = None
  ∧ success_dates_body MoreFixtures.season_five_df MoreFixtures.season_convs
    = Raise IndexError.
Proof.
  destruct (adjust_out_of_bounds MoreFixtures.season_convs MoreFixtures.season_five_df)
    as (Hlen & Hnone & Hexn); [simpl; lia|].
  split; [done|]. split; [done|]. apply Hexn.
  repeat (constructor;
          [eexists; split; [reflexivity|];
           unfold safe_activation, FIRST_DAY, LAST_DAY; lia|]).
  constructor.
Defined.

End Examples1.

Module Examples2.
Import Calendar Script2 Script2_window Fixtures.

Lemma recently_closed_window_witness :
  date_range 2 2024 = Ok (mk_datetime 2024 1 1, mk_datetime 2024 2 29)
  ∧ selected leap_db 2 2024 (mk_company 7 "g" (Some (mk_datetime 2024 2 29)))
  ∧ selected leap_db 3 2024 (mk_company 7 "g" (Some (mk_datetime 2024 2 29))).
Proof.
  assert (Hs : supported 2 2024) by (unfold supported, MINYEAR, MAXYEAR; lia).
  destruct (recently_closed_window leap_db 2 2024 Hs) as (Hrange & _ & _ & Hsel).
  split; [exact Hrange|].
  destruct (Hsel (mk_company 7 "g" (Some (mk_datetime 2024 2 29)))
              (mk_datetime 2024 2 29)) as [Hthis Hnext].
  - left.
  - reflexivity.
  - unfold valid. repeat split; by vm_compute.
  - split; reflexivity.
  - split; [exact Hthis|]. apply Hnext.
    unfold supported, MINYEAR, MAXYEAR. simpl. lia.
Defined.

End Examples2.

Module Examples3.
Import Calendar Script3 Script3_cohorts Fixtures.



End Examples3.

(** * Further properties *)

(** ** More on the SQL building blocks *)

Section more_sql_facts.

Lemma foldr_max_spec (x : Z) (r : list Z) :
  foldr Z.max x r ∈ x :: r ∧ ∀ y, y ∈ x :: r → y ≤ foldr Z.max x r.
Proof.
  induction r as [|z r [IHin IHle]]; simpl.
  - split; [left | intros y Hy; apply list_elem_of_singleton in Hy; lia].
  - split.
    + destruct (Z.max_spec z (foldr Z.max x r)) as [[_ ->]|[_ ->]].
      * apply elem_of_cons in IHin as [->|Hin]; [left | right; by right].
      * right; left.
    + intros y Hy.
      assert (Hy' : y = z ∨ y ∈ x :: r).
      { apply elem_of_cons in Hy as [->|Hy]; [right; left|].
        apply elem_of_cons in Hy as [->|Hy]; [by left | right; by right]. }
      destruct Hy' as [->|Hy']; [lia | specialize (IHle y Hy'); lia].
Qed.

Lemma sql_max_Some (l : list Z) (m : Z) :
  sql_max l = Some m ↔ m ∈ l ∧ ∀ y, y ∈ l → y ≤ m.
Proof.
  destruct l as [|x r]; simpl.
  - split; [done | intros [H _]; by apply elem_of_nil in H].
  - destruct (foldr_max_spec x r) as [Hin Hle]. split.
    + intros [= <-]. done.
    + intros [Hm Hmax]. f_equal.
      specialize (Hle m Hm). specialize (Hmax _ Hin). lia.
Qed.

Context {A B : Type} (on : A → B → Prop) `{∀ a b, Decision (on a b)}.

(** A LEFT JOIN in which no left row has two matches keeps the left
    rows as they are, each once. *)
Lemma left_join_fst (l : list A) (r : list B) :
  (∀ a, length (filter (on a) r) ≤ 1)%nat → (left_join on l r).*1 = l.
Proof.
  intros Hone. unfold left_join. induction l as [|a l IH]; [done|].
  rewrite bind_cons, fmap_app, IH. specialize (Hone a).
  destruct (filter (on a) r) as [|b [|b' ms]]; simpl in *; [done | done | lia].
Qed.

End more_sql_facts.

Lemma sumZ_cons (x : Z) (l : list Z) : sumZ (x :: l) = x + sumZ l.
Proof. done. Qed.

Lemma filter_key_NoDup {A B} `{EqDecision A} (r : list (A * B)) (k : A) :
  NoDup (r.*1) → (length (filter (fun f : A * B => k = f.1) r) ≤ 1)%nat.
Proof.
  induction r as [|[a b] r IH]; simpl; [lia|]. intros Hnd.
  apply NoDup_cons in Hnd as [Hnotin Hnd]. specialize (IH Hnd).
  destruct (decide (k = a)) as [->|Hne].
  - rewrite filter_cons_True by done.
    assert (Hnil : filter (fun f : A * B => a = f.1) r = []).
    { apply elem_of_nil_inv. intros [a' b'] Hin.
      apply list_elem_of_filter in Hin as [Heq Hin]. simpl in Heq. subst a'.
      apply Hnotin, list_elem_of_fmap. by exists (a, b'). }
    rewrite Hnil. simpl. lia.
  - rewrite filter_cons_False by done. done.
Qed.

Lemma fmap_pair_fst {A B} (g : A → B) (l : list A) :
  ((fun a => (a, g a)) <$> l).*1 = l.
Proof. induction l as [|a l IH]; [done|]. rewrite !fmap_cons. simpl. by rewrite IH. Qed.

Lemma fmap_filter_fst {A B} (P : A → Prop) `{∀ a, Decision (P a)} (l : list (A * B)) :
  (filter (fun j : A * B => P j.1) l).*1 = filter P (l.*1).
Proof.
  induction l as [|[a b] l IH]; [done|]. rewrite fmap_cons. simpl fst.
  destruct (decide (P a)).
  - rewrite !filter_cons_True by done. rewrite fmap_cons. by rewrite IH.
  - rewrite !filter_cons_False by done. done.
Qed.

(** ** 1_script.py: the frame of companies and the run of [main] *)

Module Script1_frames.
Import Script1 Script1_main Script1_activation Script1_success.

Lemma first_activation_NoDup (convs : list conversation) :
  NoDup ((first_activation convs).*1).
Proof.
  unfold first_activation. cbv zeta. rewrite fmap_pair_fst.
  apply NoDup_remove_dups.
Qed.

Lemma companies_query_ids (d : database) :
  (fun row => (company_id row, company_name row)) <$> companies_query d
  = (fun c => (id c, name c)) <$> filter partnered (company_table d).
Proof.
  unfold companies_query. rewrite <- list_fmap_compose.
  rewrite <- (left_join_fst on_account (company_table d)
                (first_activation (conversations d))) at 2.
  - rewrite <- fmap_filter_fst, <- list_fmap_compose. done.
  - intros c. apply (filter_key_NoDup _ (id c)), first_activation_NoDup.
Qed.

(** X1.  The frame of companies has, up to the order of its rows, one
    row for each row of the table that has a partner, with its id and
    name: the join with the activation dates gives no company twice and
    leaves none out, and no company without partner comes in. *)
Theorem companies_frame_one_row_each (d : database) :
  ∃ df_companies,
    fetch_companies_from_db d = Some df_companies
    ∧ (fun row => (company_id row, company_name row)) <$> df_companies
      ≡ₚ (fun c => (id c, name c)) <$> filter partnered (company_table d).
Proof. exists (companies_query d). split; [done|]. by rewrite companies_query_ids. Qed.

Section own.
Variables (a : Z).

Lemma daily_sum_own (convs : list conversation) (D : Z) :
  daily_sum convs a D
  = sumZ (snd <$> filter (fun p : Z * Z => p.1 = D) (own_rows a convs)).
Proof.
  unfold daily_sum, own_rows. induction convs as [|r convs IH]; [done|].
  destruct (decide (account_id r = a)) as [Ha|Ha].
  - rewrite (filter_cons_True (fun r => account_id r = a)) by done.
    rewrite fmap_cons. destruct (decide (date r = D)) as [HD|HD].
    + rewrite !filter_cons_True by done. rewrite !fmap_cons. simpl. by rewrite IH.
    + rewrite !filter_cons_False by (simpl; tauto). done.
  - rewrite !filter_cons_False by tauto. done.
Qed.

Lemma has_rows_own (convs : list conversation) (D : Z) :
  has_rows convs a D ↔ ∃ t, (D, t) ∈ own_rows a convs.
Proof.
  unfold has_rows, own_rows. split.
  - intros (r & Hr & Ha & HD). exists (total r). apply list_elem_of_fmap.
    exists r. split; [by rewrite HD|]. by apply list_elem_of_filter.
  - intros (t & Hin). apply list_elem_of_fmap in Hin as (r & [= -> ->] & Hr).
    apply list_elem_of_filter in Hr as [Ha Hr]. by exists r.
Qed.

Lemma qualifying_own (convs1 convs2 : list conversation) (D : Z) :
  own_rows a convs1 = own_rows a convs2 →
  qualifying convs1 a D ↔ qualifying convs2 a D.
Proof.
  intros Hown. unfold qualifying, trailing_3_day.
  by rewrite !has_rows_own, !daily_sum_own, Hown.
Qed.

End own.

(** X2.  The activation date of a company is read off the days and
    totals of the rows of its own account alone: two databases that agree
    on them give the company the same activation date, whatever the rows
    of other accounts are and whether conversations were successful. *)
Theorem activation_date_own_rows (d1 d2 : database) (row1 row2 : company_row) :
  own_rows (company_id row1) (conversations d1)
  = own_rows (company_id row1) (conversations d2) →
  row1 ∈ companies_query d1 → row2 ∈ companies_query d2 →
  company_id row2 = company_id row1 →
  activation_date row1 = activation_date row2.
Proof.
  intros Hown Hrow1 Hrow2 Hid.
  destruct (activation_date_qualifying d1 row1 Hrow1) as [HSome1 HNone1].
  destruct (activation_date_qualifying d2 row2 Hrow2) as [HSome2 HNone2].
  rewrite Hid in HSome2, HNone2.
  destruct (activation_date row1) as [D|] eqn:H1.
  - symmetry. apply HSome2. destruct (proj1 (HSome1 D) eq_refl) as [Hq Hmin]. split.
    + by apply (qualifying_own _ _ _ _ Hown).
    + intros D' Hq'. by apply Hmin, (qualifying_own _ _ _ _ Hown).
  - symmetry. apply HNone2. intros D Hq.
    apply (proj1 HNone1 eq_refl D). by apply (qualifying_own _ _ _ _ Hown).
Qed.

Section more_batch.
Variable convs : list conversation.

Lemma iterrows_succeeds (rows : list company_row) (i : nat) (acc : list success_row) :
  Forall (fun row => is_Some (activation_date row)) rows →
  (i + length rows ≤ 4)%nat →
  ∃ rs, iterrows convs i rows acc = Ok (acc ++ rs) ∧ length rs = length rows.
Proof.
  intros Hall. revert i acc.
  induction Hall as [|row rest [act Hact] Hall IH]; intros i acc Hlen; simpl in *.
  - exists []. by rewrite app_nil_r.
  - destruct (adjust_lookup i) as [days Hdays]; [lia|].
    unfold index. rewrite Hdays, Hact. simpl.
    edestruct (IH (S i)) as (rs & Heq & Hrs); [lia|]. rewrite Heq.
    eexists (_ :: rs). rewrite <- app_assoc. split; [done | simpl; lia].
Qed.

(** When the second fetch returns a frame. *)
Lemma fetch_succeeds_iff (df : list company_row) :
  (∃ results, fetch_successful_conversations df convs = Some results)
  ↔ (1 ≤ length df ≤ 4)%nat ∧ Forall (fun row => is_Some (activation_date row)) df.
Proof.
  split.
  - intros [results Hfetch]. pose proof (fetch_Some _ _ _ Hfetch) as [Hit Hne].
    apply iterrows_Ok in Hit as (rs & -> & Hlen & Hk). simpl in Hne.
    assert (Hbound : (length df ≤ 4)%nat).
    { destruct (decide (length df ≤ 4)%nat) as [|Hgt]; [done|]. exfalso.
      destruct (lookup_lt_is_Some_2 df 4) as [row Hrow]; [lia|].
      destruct (Hk _ _ Hrow) as (? & days & _ & Hdays & _). done. }
    split.
    + split; [|done]. destruct rs; [done | simpl in Hlen; lia].
    + apply Forall_forall. intros row Hrow.
      apply list_elem_of_lookup_1 in Hrow as [k Hrow].
      destruct (Hk _ _ Hrow) as (act & ? & -> & _). by eexists.
  - intros [[Hlo Hhi] Hall]. unfold fetch_successful_conversations.
    destruct (iterrows_succeeds df 0 [] Hall) as (rs & -> & Hlen); [simpl; lia|].
    simpl. destruct rs as [|r rs]; [simpl in Hlen; lia|]. by eexists.
Qed.

(** The rows of a returned frame, one by one. *)
Lemma fetch_rows (df : list company_row) (results : list success_row) :
  fetch_successful_conversations df convs = Some results →
  length results = length df
  ∧ ∀ res, res ∈ results →
      ∃ row act days, row ∈ df ∧ activation_date row = Some act
                      ∧ res = result_row convs row act days.
Proof.
  intros Hfetch. pose proof (fetch_Some _ _ _ Hfetch) as [Hit _].
  apply iterrows_Ok in Hit as (rs & -> & Hlen & Hk). simpl. split; [done|].
  intros res Hres. apply list_elem_of_lookup_1 in Hres as [k Hres].
  destruct (lookup_lt_is_Some_2 df k) as [row Hrow].
  { rewrite <- Hlen. apply lookup_lt_is_Some_1. by eexists. }
  destruct (Hk _ _ Hrow) as (act & days & Hact & _ & Hres').
  rewrite Hres in Hres'. injection Hres' as ->.
  exists row, act, days. split; [by eapply list_elem_of_lookup_2 | done].
Qed.

Lemma fetch_ids (df : list company_row) (results : list success_row) :
  fetch_successful_conversations df convs = Some results →
  sr_company_id <$> results = company_id <$> df.
Proof.
  intros Hfetch. apply list_eq. intros k. rewrite !list_lookup_fmap.
  destruct (df !! k) as [row|] eqn:Hrow.
  - destruct (fetch_row _ _ _ _ _ Hfetch Hrow) as (act & days & _ & _ & ->). done.
  - destruct (fetch_rows _ _ Hfetch) as [Hlen _].
    apply lookup_ge_None in Hrow. rewrite <- Hlen in Hrow.
    apply lookup_ge_None in Hrow. by rewrite Hrow.
Qed.

End more_batch.

(** X3.  For a batch whose activation dates leave every date of the
    loop within the days that Python holds, the second fetch returns a
    frame exactly when the batch has one to four companies that all have
    an activation date; for no company, for more than four, or with one
    activation date missing, it returns [None]. *)
Theorem success_frame_returned_iff (convs : list conversation) (df : list company_row) :
  Forall (fun row => ∀ act, activation_date row = Some act → safe_activation act) df →
  ((∃ results, fetch_successful_conversations df convs = Some results)
   ↔ (1 ≤ length df ≤ 4)%nat ∧ Forall (fun row => is_Some (activation_date row)) df)
  ∧ (fetch_successful_conversations df convs = None
     ↔ ¬ ((1 ≤ length df ≤ 4)%nat
          ∧ Forall (fun row => is_Some (activation_date row)) df)).
Proof.
  intros _. pose proof (fetch_succeeds_iff convs df) as Hiff. split; [done|].
  rewrite <- Hiff. destruct (fetch_successful_conversations df convs) as [r|].
  - split; [done|]. intros Hno. exfalso. apply Hno. by exists r.
  - split; [|done]. intros _ [r Hr]. done.
Qed.

(** X4.  A returned frame has one row for each company of the batch, in
    the order of the batch, with the company's id. *)
Theorem success_frame_in_batch_order (convs : list conversation)
    (df : list company_row) (results : list success_row) :
  fetch_successful_conversations df convs = Some results →
  length results = length df
  ∧ sr_company_id <$> results = company_id <$> df.
Proof.
  intros Hfetch. split; [|by apply (fetch_ids convs)].
  by destruct (fetch_rows _ _ _ Hfetch).
Qed.

Lemma filter_iff_elem {A} (P Q : A → Prop) `{∀ x, Decision (P x)}
    `{∀ x, Decision (Q x)} (l : list A) :
  (∀ x, x ∈ l → P x ↔ Q x) → filter P l = filter Q l.
Proof.
  induction l as [|x l IH]; intros Hiff; [done|].
  assert (Hx : P x ↔ Q x) by (apply Hiff; left).
  assert (Hl : filter P l = filter Q l) by (apply IH; intros y Hy; apply Hiff; by right).
  destruct (decide (P x)) as [HP|HP].
  - rewrite !filter_cons_True by tauto. by rewrite Hl.
  - rewrite !filter_cons_False by tauto. done.
Qed.

Lemma running_total_last (l : list conversation) (acc : Z) :
  l ≠ [] → ∃ D, (D, acc + sumZ (total <$> l)) ∈ running_total acc l.
Proof.
  revert acc. induction l as [|r l IH]; intros acc Hne; [done|].
  rewrite fmap_cons, sumZ_cons. cbn [running_total].
  destruct l as [|r' l].
  - exists (date r). replace (acc + (total r + sumZ (total <$> []))) with (acc + total r)
      by (rewrite fmap_nil; unfold sumZ; simpl; lia).
    left.
  - destruct (IH (acc + total r)) as [D HD]; [done|]. exists D. right.
    by rewrite Z.add_assoc.
Qed.

Section one_query.
Variables (convs : list conversation) (cid act : Z).

Lemma period_total :
  sumZ (total <$> period_rows convs cid act) = cumulative convs cid act (act + 60).
Proof.
  unfold cumulative, period_rows.
  apply sumZ_Permutation, fmap_Permutation, merge_sort_Permutation.
Qed.

Lemma crossed_ge_500 (D c : Z) : (D, c) ∈ crossed convs cid act (act + 60) → 500 ≤ c.
Proof. intros Hin. by apply list_elem_of_filter in Hin as [? _]. Qed.

(** Both columns of the one row are missing together. *)
Lemma success_query_columns (days : Z) :
  is_Some (success_query convs cid act (act + 60) days).1
  ↔ is_Some (success_query convs cid act (act + 60) days).2.
Proof.
  unfold success_query. destruct (crossed convs cid act (act + 60)) as [|p l]; simpl.
  - split; intros [? ?]; done.
  - split; intros _; by eexists.
Qed.

(** [MAX(cum_total)] is the running total of the last row of the period. *)
Lemma success_query_cum_total (days : Z) :
  nonneg_totals convs →
  (success_query convs cid act (act + 60) days).2
  = if decide (500 ≤ cumulative convs cid act (act + 60))
    then Some (cumulative convs cid act (act + 60)) else None.
Proof.
  intros Hnn. unfold success_query. simpl. case_decide as HT.
  - apply sql_max_Some.
    assert (Hne : period_rows convs cid act ≠ []).
    { intros Hnil. pose proof period_total as Ht. rewrite Hnil in Ht. simpl in Ht. lia. }
    destruct (running_total_last _ 0 Hne) as [D HD].
    rewrite period_total in HD. simpl in HD. split.
    + apply list_elem_of_fmap. exists (D, cumulative convs cid act (act + 60)).
      split; [done|]. apply list_elem_of_filter. done.
    + intros y Hy. apply list_elem_of_fmap in Hy as ([D' c] & -> & Hin).
      apply list_elem_of_filter in Hin as [_ Hin]. simpl.
      pose proof (running_total_le_sum _ 0 D' c (period_nonneg convs cid act Hnn) Hin) as Hle.
      rewrite period_total in Hle. lia.
  - rewrite crossed_nil; [done|]. right. split; [done | lia].
Qed.

End one_query.

(** X5.  With totals that are counts, the [cum_total] reported for a
    company is the sum of its successful totals over the whole period of
    60 days when this sum is at least 500, and missing otherwise: it is
    the total at the end of the period, not the total on the day the
    threshold was crossed; the success date is there in the same case. *)
Theorem reported_cum_total (convs : list conversation)
    (df : list company_row) (results : list success_row)
    (idx : nat) (row : company_row) (res : success_row) (act : Z) :
  nonneg_totals convs →
  fetch_successful_conversations df convs = Some results →
  df !! idx = Some row → results !! idx = Some res →
  activation_date row = Some act →
  cum_total res
  = (if decide (500 ≤ cumulative convs (company_id row) act (act + 60))
     then Some (cumulative convs (company_id row) act (act + 60)) else None)
  ∧ (is_Some (success_date res)
     ↔ 500 ≤ cumulative convs (company_id row) act (act + 60)).
Proof.
  intros Hnn Hfetch Hrow Hres Hact.
  destruct (fetch_row convs df results idx row Hfetch Hrow)
    as (act' & days & Hact' & _ & Hres').
  rewrite Hact in Hact'. injection Hact' as <-.
  rewrite Hres in Hres'. injection Hres' as ->.
  unfold result_row. cbv zeta. cbn [success_date cum_total].
  rewrite success_query_columns, success_query_cum_total by done.
  split; [done|]. case_decide; split; done.
Qed.

(** X6.  On a returned frame [determine_successful_companies] keeps
    exactly the rows that have a success date: a [cum_total] that is
    there is at least 500 already. *)
Theorem determine_successful_companies_on_frame (convs : list conversation)
    (df : list company_row) (results : list success_row) :
  fetch_successful_conversations df convs = Some results →
  determine_successful_companies results
  = filter (fun r => is_Some (success_date r)) results.
Proof.
  intros Hfetch. unfold determine_successful_companies.
  apply filter_iff_elem. intros res Hres.
  destruct (fetch_rows convs df results Hfetch) as [_ Hrows].
  destruct (Hrows res Hres) as (row & act & days & _ & _ & ->).
  unfold cum_total_ge_500, result_row. cbv zeta. cbn [success_date cum_total].
  rewrite success_query_columns. unfold success_query. cbv zeta. cbn [fst snd].
  destruct (sql_max _) as [c|] eqn:Hmax.
  - split; [by eexists|]. intros _. apply sql_max_Some in Hmax as [Hin _].
    apply list_elem_of_fmap in Hin as ([D c'] & -> & Hin).
    by apply crossed_ge_500 in Hin.
  - split; [done | intros [? ?]; done].
Qed.

Lemma companies_query_activated (d : database) :
  Forall (fun row => is_Some (activation_date row)) (companies_query d)
  ↔ ∀ c, c ∈ company_table d → partnered c → activated d c.
Proof.
  rewrite Forall_forall. split.
  - intros Hall c Hc Hp.
    destruct (companies_query_complete d c Hc Hp) as (row & Hrow & Hid).
    destruct (Hall row Hrow) as [D HD].
    exists D. rewrite <- Hid. by apply (activation_date_qualifying d row Hrow).
  - intros Hall row Hrow.
    pose proof Hrow as Hrow'.
    apply elem_of_companies_query in Hrow' as (c & o & Heq & Hp & Hc & _).
    destruct (Hall c Hc Hp) as [D HD].
    destruct (activation_date row) as [D'|] eqn:Hact; [by eexists|]. exfalso.
    apply (proj1 (proj2 (activation_date_qualifying d row Hrow)) Hact D).
    by rewrite Heq.
Qed.

(** X7.  With conversations dated so that every date of the run stays
    within the days that Python and pandas hold: [main] gets past the
    two fetches exactly when the table has one to four companies with a
    partner and each of them has a day on which it is activated; in
    every other case it stops with a [TypeError], before anything is
    plotted. *)
Theorem main_reaches_df_2023 (d : database) :
  Forall (fun r => safe_activation (date r)) (conversations d) →
  ((∃ df, main d = Reached df)
   ↔ (1 ≤ length (filter partnered (company_table d)) ≤ 4)%nat
     ∧ ∀ c, c ∈ company_table d → partnered c → activated d c)
  ∧ (main d = TypeError
     ↔ ¬ ((1 ≤ length (filter partnered (company_table d)) ≤ 4)%nat
          ∧ ∀ c, c ∈ company_table d → partnered c → activated d c)).
Proof.
  intros _.
  assert (Hlen : length (companies_query d) = length (filter partnered (company_table d))).
  { rewrite <- (length_fmap (fun row => (company_id row, company_name row))).
    rewrite companies_query_ids. apply length_fmap. }
  pose proof (fetch_succeeds_iff (conversations d) (companies_query d)) as Hiff.
  rewrite Hlen, companies_query_activated in Hiff.
  unfold main. simpl. rewrite <- Hiff.
  destruct (fetch_successful_conversations _ _) as [r|].
  - split; split; try done.
    + intros _. by eexists.
    + intros _. by eexists.
    + intros Hno. exfalso. apply Hno. by eexists.
  - split; split; try done.
    + intros [? ?]. done.
    + intros [? ?]. done.
    + intros _ [? ?]. done.
Qed.

End Script1_frames.

(** ** 2_script.py: how the requests end, and the dictionary *)

Module Script2_outcomes.
Import Calendar Script2 Script2_helpers Script2_window Script2_percentage.

Lemma new_invalid (y m d : Z) :
  c_int y → c_int m → c_int d →
  ¬ (MINYEAR ≤ y ≤ MAXYEAR ∧ 1 ≤ m ≤ 12 ∧ 1 ≤ d ≤ days_in_month y m) →
  new y m d = Raise ValueError.
Proof.
  intros Hcy Hcm Hcd Hno. unfold new. rewrite decide_True by done.
  destruct ((MINYEAR <=? y) && (y <=? MAXYEAR) && (1 <=? m) && (m <=? 12)
            && (1 <=? d) && (d <=? days_in_month y m)) eqn:Hc; [|done].
  exfalso. apply Hno. rewrite !andb_true_iff, !Z.leb_le in Hc. lia.
Qed.

Lemma new_overflow (y m d : Z) :
  ¬ (c_int y ∧ c_int m ∧ c_int d) → new y m d = Raise OverflowError.
Proof. intros Hno. unfold new. by rewrite decide_False. Qed.

Lemma bind_Raise {A B} (e : exn) (k : A → outcome B) : (Raise e ≫= k) = Raise e.
Proof. done. Qed.

Lemma first_of_month (y m : Z) :
  MINYEAR ≤ y ≤ MAXYEAR → 1 ≤ m ≤ 12 → new y m 1 = Ok (mk_datetime y m 1).
Proof.
  intros Hy Hm. apply new_valid; [done | done |].
  pose proof (days_in_month_bounds y m Hm). lia.
Qed.

Lemma c_int_small (n : Z) : -10001 ≤ n ≤ 10001 → c_int n.
Proof. unfold c_int, INT_MIN, INT_MAX. lia. Qed.

(** X8.  The date range of [get_recently_closed_companies] exists for
    the supported requests only; every other request raises.  It raises
    [OverflowError] for December of 9999 (the 31 days added) and when
    the first [datetime] built, that of the preceding month, gets a
    year or a month that does not fit a C [int]; in all other cases (a
    month outside 1..12, a year outside 1..9999, January of year 1) it
    raises the [ValueError] of the [datetime] constructor. *)
Theorem date_range_outcome (month year : Z) :
  date_range month year
  = if decide (supported month year) then Ok (two_month_range month year)
    else if decide ((month = 12 ∧ year = MAXYEAR)
                    ∨ ¬ (c_int (preceding_month month year).1
                         ∧ c_int (preceding_month month year).2))
         then Raise OverflowError
    else Raise ValueError.
Proof.
  case_decide as Hs; [by apply date_range_supported|].
  destruct (decide (month = 12 ∧ year = MAXYEAR)) as [[-> ->]|Hlast].
  { rewrite decide_True by (by left). by vm_compute. }
  unfold supported in Hs. unfold date_range, preceding_month.
  assert (H1 : c_int 1) by (by apply c_int_small).
  assert (H12 : c_int 12) by (by apply c_int_small).
  destruct (decide (month = 1)) as [->|Hm1].
  - rewrite (decide_False (P := 1 ≠ 1)) by (intros ?; done). cbn [fst snd].
    destruct (decide (c_int (year - 1))) as [Hc|Hc].
    + rewrite (decide_False (P := _ ∨ _)) by tauto.
      destruct (decide (MINYEAR ≤ year - 1 ≤ MAXYEAR)) as [Hy|Hy].
      * rewrite (first_of_month (year - 1) 12) by (done || lia). rewrite bind_Ok.
        rewrite (new_invalid year 1); [done | | done | done |].
        -- apply c_int_small. unfold MINYEAR, MAXYEAR in *. lia.
        -- unfold MINYEAR, MAXYEAR in *. lia.
      * rewrite (new_invalid (year - 1) 12); [done | done | done | done |]. lia.
    + rewrite (decide_True (P := _ ∨ _)) by tauto.
      rewrite (new_overflow (year - 1) 12); [done | tauto].
  - rewrite (decide_True (P := month ≠ 1)) by done. cbn [fst snd].
    destruct (decide (c_int year ∧ c_int (month - 1))) as [[Hcy Hcm]|Hc].
    + rewrite (decide_False (P := _ ∨ _)) by tauto.
      destruct (decide (MINYEAR ≤ year ≤ MAXYEAR ∧ 1 ≤ month - 1 ≤ 12))
        as [[Hy Hm]|Hno].
      * rewrite (first_of_month year (month - 1)) by done. rewrite bind_Ok.
        rewrite (new_invalid year month); [done | done | | done |].
        -- apply c_int_small. lia.
        -- unfold MINYEAR, MAXYEAR in *. lia.
      * rewrite (new_invalid year (month - 1)); [done | done | done | done |].
        pose proof (days_in_month_bounds year (month - 1)). lia.
    + rewrite (decide_True (P := _ ∨ _)) by tauto.
      rewrite (new_overflow year (month - 1)); [done | tauto].
Qed.

Lemma get_successful_conversations_cases (d : database) (company_ids : list Z)
    (month year : Z) :
  ((∃ result,
      get_successful_conversations_for_companies d company_ids month year = Ok result)
   ↔ company_ids = []
     ∨ ∃ i, i ∈ company_identifiers d ∧ ci_company_id i ∈ company_ids)
  ∧ (get_successful_conversations_for_companies d company_ids month year
     = Raise ProgrammingError
     ↔ company_ids ≠ []
       ∧ ∀ i, i ∈ company_identifiers d → ci_company_id i ∉ company_ids).
Proof.
  unfold get_successful_conversations_for_companies.
  case_decide as Hnil.
  { split; split; try done.
    - intros _. by left.
    - intros _. by eexists.
    - intros [? _]. done. }
  destruct company_ids as [|c ids]; [done|]. simpl in_tuple. rewrite bind_Ok.
  destruct (filter (in_ids (c :: ids)) (company_identifiers d)) as [|i l] eqn:Hf.
  - simpl. split; split; try done.
    + intros [? ?]. done.
    + intros [?|(i & Hi & Hin)]; [done|]. exfalso.
      by apply (filter_nil_not_elem_of _ _ i Hf).
    + intros _. split; [done|]. intros i Hi Hin.
      by apply (filter_nil_not_elem_of _ _ i Hf).
  - assert (Hi : i ∈ company_identifiers d ∧ ci_company_id i ∈ c :: ids).
    { assert (Hin : i ∈ filter (in_ids (c :: ids)) (company_identifiers d))
        by (rewrite Hf; left).
      apply list_elem_of_filter in Hin as [? ?]. done. }
    simpl. split; split; try done.
    + intros _. right. by exists i.
    + intros _. by eexists.
    + intros [_ Hno]. destruct Hi as [Hi Hin]. by destruct (Hno i Hi).
Qed.

(** X9.  [get_successful_conversations_for_companies] returns a
    dictionary when it is given no company, or when one of the companies
    has a row in [company_identifiers]; given companies of which none has
    such a row it raises, on the second query. *)
Theorem successful_conversations_outcome (d : database) (company_ids : list Z)
    (month year : Z) :
  ((∃ result,
      get_successful_conversations_for_companies d company_ids month year = Ok result)
   ↔ company_ids = []
     ∨ ∃ i, i ∈ company_identifiers d ∧ ci_company_id i ∈ company_ids)
  ∧ (get_successful_conversations_for_companies d company_ids month year
     = Raise ProgrammingError
     ↔ company_ids ≠ []
       ∧ ∀ i, i ∈ company_identifiers d → ci_company_id i ∉ company_ids).
Proof. apply get_successful_conversations_cases. Qed.

Section dictionary.
Variables (d : database) (month year : Z).

(** The rows of the second query. *)
Lemma elem_of_successful_conversations_query (accounts : list Z) (a v : Z) :
  (a, v) ∈ successful_conversations_query d accounts month year ↔
  a ∈ accounts
  ∧ (∃ r, r ∈ conversations d ∧ account_id r = a ∧ successful r = true
          ∧ Calendar.month (date r) = month ∧ Calendar.year (date r) = year)
  ∧ v = monthly_total (conversations d) a month year.
Proof.
  assert (Htotal : a ∈ accounts →
            sumZ (total <$> filter (fun r => account_id r = a)
                              (filter (matched accounts month year) (conversations d)))
            = monthly_total (conversations d) a month year).
  { intros Ha. unfold monthly_total. rewrite list_filter_filter. f_equal. f_equal.
    apply list_filter_iff. intros r. unfold matched. split.
    - intros (<- & _ & ? & ? & ?). done.
    - intros (<- & ? & ? & ?). done. }
  unfold successful_conversations_query. rewrite list_elem_of_fmap. split.
  - intros (a' & [= <- ->] & Ha).
    apply elem_of_remove_dups, list_elem_of_fmap in Ha as (r & -> & Hr).
    apply list_elem_of_filter in Hr as [(Hacc & ? & ? & ?) Hr].
    split; [done|]. split; [by exists r|]. by apply Htotal.
  - intros (Ha & (r & Hr & <- & ? & ? & ?) & ->). exists (account_id r). split.
    + f_equal. symmetry. by apply Htotal.
    + apply elem_of_remove_dups, list_elem_of_fmap. exists r. split; [done|].
      apply list_elem_of_filter. done.
Qed.

Lemma successful_conversations_query_NoDup (accounts : list Z) :
  NoDup ((successful_conversations_query d accounts month year).*1).
Proof.
  unfold successful_conversations_query. cbv zeta. rewrite fmap_pair_fst.
  apply NoDup_remove_dups.
Qed.

End dictionary.

(** The values the two loops store. *)
Lemma lookup_map_to_company_ids (month : Z) (account_mapping sc : list (Z * Z))
    (k x : Z) :
  map_to_company_ids month account_mapping sc !! k = Some x →
  ∃ a v, (k, a) ∈ account_mapping ∧ (a, v) ∈ sc ∧ x = v + bonus_of month k.
Proof.
  unfold map_to_company_ids.
  assert (Hinner : ∀ (m : Z * Z) (l : list (Z * Z)) (result : gmap Z Z),
             foldl (fun result (s : Z * Z) =>
                      if decide (m.2 = s.1)
                      then <[ m.1 := s.2 + bonus_of month m.1 ]> result
                      else result) result l !! k = Some x →
             result !! k = Some x
             ∨ (k = m.1 ∧ ∃ v, (m.2, v) ∈ l ∧ x = v + bonus_of month k)).
  { intros m l. induction l as [|[a v] l IH]; intros result; cbn [foldl]; [by left|].
    intros Hx. apply IH in Hx as [Hx|(-> & v' & Hv' & ->)].
    - case_decide as Ha; simpl in Ha; [|by left].
      destruct (decide (k = m.1)) as [->|Hne].
      + rewrite lookup_insert_eq in Hx. injection Hx as <-. right.
        split; [done|]. exists v. rewrite Ha. split; [left | done].
      + rewrite lookup_insert_ne in Hx by done. by left.
    - right. split; [done|]. exists v'. split; [by right | done]. }
  assert (Houter : ∀ (am : list (Z * Z)) (result : gmap Z Z),
             foldl (fun result (m : Z * Z) =>
                      foldl (fun result (s : Z * Z) =>
                               if decide (m.2 = s.1)
                               then <[ m.1 := s.2 + bonus_of month m.1 ]> result
                               else result) result sc) result am !! k = Some x →
             result !! k = Some x
             ∨ ∃ a v, (k, a) ∈ am ∧ (a, v) ∈ sc ∧ x = v + bonus_of month k).
  { intros am. induction am as [|[c a] am IH]; intros result; cbn [foldl]; [by left|].
    intros Hx. apply IH in Hx as [Hx|(a' & v & Hk & Hv & ->)].
    - apply Hinner in Hx as [Hx|(-> & v & Hv & ->)]; [by left|]. right.
      exists a, v. split; [left | done].
    - right. exists a', v. split; [by right | done]. }
  intros Hx. apply Houter in Hx as [Hx|Hx]; [|done].
  by rewrite lookup_empty in Hx.
Qed.

(** The account mapping of a call that got past the guard. *)
Lemma get_successful_conversations_Ok (d : database) (company_ids : list Z)
    (month year : Z) (result : gmap Z Z) :
  get_successful_conversations_for_companies d company_ids month year = Ok result →
  let account_mapping :=
    (fun i => (ci_company_id i, account_identifier i))
    <$> filter (in_ids company_ids) (company_identifiers d) in
  result = map_to_company_ids month account_mapping
             (successful_conversations_query d (account_mapping.*2) month year).
Proof.
  unfold get_successful_conversations_for_companies. case_decide as Hnil.
  - intros [= <-]. subst company_ids. simpl.
    assert (Hf : filter (in_ids []) (company_identifiers d) = []).
    { apply elem_of_nil_inv. intros i Hi. apply list_elem_of_filter in Hi as [Hin _].
      unfold in_ids in Hin. by apply elem_of_nil in Hin. }
    by rewrite Hf.
  - destruct company_ids as [|c ids]; [done|]. simpl in_tuple. rewrite bind_Ok.
    destruct (in_tuple _) as [accounts|e] eqn:Hacc; [|done]. rewrite bind_Ok.
    intros [= <-]. simpl.
    destruct (((fun i => (ci_company_id i, account_identifier i))
               <$> filter (in_ids (c :: ids)) (company_identifiers d)).*2)
      as [|a l] eqn:Hl; [done|]. simpl in Hacc. by injection Hacc as <-.
Qed.

(** X10.  The keys of the dictionary are the companies of the list that
    have, on one of their accounts, at least one successful conversation
    in the month of the year; a company of the list without such a row
    has no key. *)
Theorem dictionary_keys (d : database) (company_ids : list Z) (month year : Z)
    (result : gmap Z Z) (k : Z) :
  get_successful_conversations_for_companies d company_ids month year = Ok result →
  k ∈ dom result ↔
  k ∈ company_ids
  ∧ ∃ i r, i ∈ company_identifiers d ∧ ci_company_id i = k
           ∧ r ∈ conversations d ∧ account_id r = account_identifier i
           ∧ successful r = true
           ∧ Calendar.month (date r) = month ∧ Calendar.year (date r) = year.
Proof.
  intros Hget. rewrite (get_successful_conversations_Ok _ _ _ _ _ Hget).
  rewrite elem_of_dom_map_to_company_ids. split.
  - intros (a & v & Hk & Hv). apply list_elem_of_fmap in Hk as (i & [= -> ->] & Hi).
    apply list_elem_of_filter in Hi as [Hin Hi].
    apply elem_of_successful_conversations_query
      in Hv as (_ & (r & Hr & Ha & Hs & Hm & Hy) & _).
    split; [done|]. exists i, r. repeat split; done.
  - intros (Hk & i & r & Hi & <- & Hr & Ha & Hs & Hm & Hy).
    exists (account_identifier i),
      (monthly_total (conversations d) (account_identifier i) month year).
    assert (Hmap : (ci_company_id i, account_identifier i)
                   ∈ (fun i => (ci_company_id i, account_identifier i))
                     <$> filter (in_ids company_ids) (company_identifiers d)).
    { apply list_elem_of_fmap. exists i. split; [done|]. by apply list_elem_of_filter. }
    split; [done|]. apply elem_of_successful_conversations_query.
    split; [|split; [exists r; repeat split; done | done]].
    apply list_elem_of_fmap. exists (ci_company_id i, account_identifier i).
    split; done.
Qed.

(** X11.  Every value of the dictionary is the sum of the successful
    totals of the month on one account of the company, plus the bonus of
    the month and the company: the totals of several accounts of a
    company are not added up. *)
Theorem dictionary_values (d : database) (company_ids : list Z) (month year : Z)
    (result : gmap Z Z) (k x : Z) :
  get_successful_conversations_for_companies d company_ids month year = Ok result →
  result !! k = Some x →
  ∃ i, i ∈ company_identifiers d ∧ ci_company_id i = k ∧ k ∈ company_ids
       ∧ x = monthly_total (conversations d) (account_identifier i) month year
             + bonus_of month k.
Proof.
  intros Hget Hx. rewrite (get_successful_conversations_Ok _ _ _ _ _ Hget) in Hx.
  apply lookup_map_to_company_ids in Hx as (a & v & Hk & Hv & ->).
  apply list_elem_of_fmap in Hk as (i & [= -> ->] & Hi).
  apply list_elem_of_filter in Hi as [Hin Hi].
  apply elem_of_successful_conversations_query in Hv as (_ & _ & ->).
  by exists i.
Qed.

Section loops.
Variables (month : Z) (sc : list (Z * Z)).

Lemma inner_loop_other (l : list (Z * Z)) (m : Z * Z) (result : gmap Z Z) (k : Z) :
  k ≠ m.1 →
  foldl (fun result (s : Z * Z) =>
           if decide (m.2 = s.1)
           then <[ m.1 := s.2 + bonus_of month m.1 ]> result
           else result) result l !! k = result !! k.
Proof.
  intros Hne. revert result. induction l as [|s l IH]; intros result; cbn [foldl]; [done|].
  rewrite IH. case_decide; [|done]. by rewrite lookup_insert_ne.
Qed.

Lemma inner_loop_no_match (l : list (Z * Z)) (m : Z * Z) (result : gmap Z Z) :
  m.2 ∉ l.*1 →
  foldl (fun result (s : Z * Z) =>
           if decide (m.2 = s.1)
           then <[ m.1 := s.2 + bonus_of month m.1 ]> result
           else result) result l = result.
Proof.
  revert result. induction l as [|s l IH]; intros result Hno; cbn [foldl]; [done|].
  rewrite fmap_cons, not_elem_of_cons in Hno. destruct Hno as [Hne Hno].
  rewrite decide_False by done. by apply IH.
Qed.

Lemma inner_loop_match (l : list (Z * Z)) (m : Z * Z) (result : gmap Z Z) (v : Z) :
  NoDup (l.*1) → (m.2, v) ∈ l →
  foldl (fun result (s : Z * Z) =>
           if decide (m.2 = s.1)
           then <[ m.1 := s.2 + bonus_of month m.1 ]> result
           else result) result l = <[ m.1 := v + bonus_of month m.1 ]> result.
Proof.
  revert result. induction l as [|[a v'] l IH]; intros result Hnd Hin; cbn [foldl].
  - by apply elem_of_nil in Hin.
  - rewrite fmap_cons in Hnd. apply NoDup_cons in Hnd as [Hnotin Hnd]. simpl in *.
    case_decide as Ha.
    + assert (v = v') as <-.
      { apply elem_of_cons in Hin as [[= _ ->]|Hin]; [done|]. exfalso.
        apply Hnotin, list_elem_of_fmap. exists (m.2, v). split; [by rewrite Ha | done]. }
      apply inner_loop_no_match. by rewrite Ha.
    + apply IH; [done|]. apply elem_of_cons in Hin as [[= ? _]|Hin]; done.
Qed.

(** The last account of a company that has a row in the second query
    gives the company its value. *)
Lemma outer_loop_last (am1 am2 : list (Z * Z)) (k a v : Z) :
  NoDup (sc.*1) → (a, v) ∈ sc →
  (∀ a', (k, a') ∈ am2 → a' ∉ sc.*1) →
  map_to_company_ids month (am1 ++ (k, a) :: am2) sc !! k
  = Some (v + bonus_of month k).
Proof.
  intros Hnd Hv Hlater. unfold map_to_company_ids.
  assert (Hkeep : ∀ result : gmap Z Z,
            foldl (fun result (m : Z * Z) =>
                     foldl (fun result (s : Z * Z) =>
                              if decide (m.2 = s.1)
                              then <[ m.1 := s.2 + bonus_of month m.1 ]> result
                              else result) result sc) result am2 !! k = result !! k).
  { induction am2 as [|[k' a'] am2 IH]; intros result; cbn [foldl]; [done|].
    rewrite IH by (intros a'' Hin; apply Hlater; by right).
    destruct (decide (k = k')) as [<-|Hne].
    - rewrite (inner_loop_no_match sc (k, a')); [done|]. apply Hlater. left.
    - by apply inner_loop_other. }
  rewrite foldl_app. cbn [foldl]. rewrite Hkeep.
  rewrite (inner_loop_match sc (k, a) _ v Hnd Hv). apply lookup_insert_eq.
Qed.

End loops.

(** X12.  When a company of the list has several rows in
    [company_identifiers], the last of them (in the order of the first
    query) whose account has a successful conversation in the month
    gives the value: the later assignment overwrites the earlier one. *)
Theorem last_matched_account_wins (d : database) (company_ids : list Z)
    (month year : Z) (result : gmap Z Z) (l1 l2 : list identifier) (i : identifier) :
  get_successful_conversations_for_companies d company_ids month year = Ok result →
  filter (in_ids company_ids) (company_identifiers d) = l1 ++ i :: l2 →
  has_successful (conversations d) (account_identifier i) month year →
  (∀ i', i' ∈ l2 → ci_company_id i' = ci_company_id i →
         ¬ has_successful (conversations d) (account_identifier i') month year) →
  result !! ci_company_id i
  = Some (monthly_total (conversations d) (account_identifier i) month year
          + bonus_of month (ci_company_id i)).
Proof.
  intros Hget Hsplit Hhas Hlater.
  rewrite (get_successful_conversations_Ok _ _ _ _ _ Hget).
  rewrite Hsplit, fmap_app, fmap_cons.
  apply outer_loop_last.
  - apply successful_conversations_query_NoDup.
  - apply elem_of_successful_conversations_query. split; [|done].
    rewrite !fmap_app, !fmap_cons. apply elem_of_app. right. left.
  - intros a' Hin Hsc. apply list_elem_of_fmap in Hin as (i' & [= Hk ->] & Hi').
    apply list_elem_of_fmap in Hsc as ([a v] & Ha & Hv). simpl in Ha. subst a.
    apply elem_of_successful_conversations_query in Hv as (_ & Hhas' & _).
    by apply (Hlater i' Hi').
Qed.

Lemma str_mul_replicate (c n : Z) : str_mul [c] n = replicate (Z.to_nat n) c.
Proof.
  unfold str_mul. induction (Z.to_nat n) as [|k IH]; [done|]. simpl. by rewrite IH.
Qed.

(** X13.  The loading bar is a left bracket, one black square for each
    unit of [current_month], white squares up to [bar_length], and a
    right bracket; [total_months] has no part in it.  It has [bar_length]
    cells exactly when [current_month] is between 0 and [bar_length], and
    more than that otherwise. *)
Theorem loading_bar_cells (current_month total_months bar_length : Z) :
  loading_bar current_month total_months bar_length
  = [LEFT_BRACKET] ++ replicate (Z.to_nat current_month) BLACK_SQUARE
    ++ replicate (Z.to_nat (bar_length - current_month)) WHITE_SQUARE
    ++ [RIGHT_BRACKET]
  ∧ Z.of_nat (length (loading_bar current_month total_months bar_length))
    = 2 + Z.max 0 current_month + Z.max 0 (bar_length - current_month)
  ∧ (0 ≤ bar_length →
     Z.of_nat (length (loading_bar current_month total_months bar_length))
     = bar_length + 2
     ↔ 0 ≤ current_month ≤ bar_length).
Proof.
  assert (Hbar : loading_bar current_month total_months bar_length
                 = [LEFT_BRACKET] ++ replicate (Z.to_nat current_month) BLACK_SQUARE
                   ++ replicate (Z.to_nat (bar_length - current_month)) WHITE_SQUARE
                   ++ [RIGHT_BRACKET]).
  { unfold loading_bar. cbv zeta. by rewrite !str_mul_replicate. }
  split; [done|]. rewrite Hbar.
  rewrite !length_app, !length_replicate. simpl. split; [lia|]. intros Hb. lia.
Qed.

Section map_months.
Context {A B : Type} (f : A → outcome B).

Lemma mapM_Ok (l : list A) (k : list B) :
  mapM f l = Ok k ↔ Forall2 (fun x y => f x = Ok y) l k.
Proof.
  revert k. induction l as [|x l IH]; intros k; simpl.
  - split; [intros [= <-]; constructor | by inversion 1].
  - destruct (f x) as [y|e] eqn:Hx; simpl.
    + destruct (mapM f l) as [k'|e] eqn:Hl; simpl.
      * split.
        -- intros [= <-]. constructor; [done|]. by apply IH.
        -- inversion 1 as [|? y' ? k'' Hy Hk]; subst. rewrite Hx in Hy.
           injection Hy as <-. apply IH in Hk. by injection Hk as <-.
      * split; [done|]. inversion 1 as [|? y' ? k'' Hy Hk]; subst.
        by apply IH in Hk.
    + split; [done|]. inversion 1 as [|? y' ? k'' Hy Hk]; subst. by rewrite Hx in Hy.
Qed.

Lemma mapM_Raise (l : list A) (e : exn) :
  mapM f l = Raise e ↔
  ∃ l1 x l2, l = l1 ++ x :: l2 ∧ Forall (fun x' => ∃ y, f x' = Ok y) l1
             ∧ f x = Raise e.
Proof.
  induction l as [|x l IH]; simpl.
  - split; [done|]. intros (l1 & x & l2 & Hl & _). by destruct l1.
  - destruct (f x) as [y|e'] eqn:Hx; simpl.
    + destruct (mapM f l) as [k'|e'] eqn:Hl; simpl.
      * split; [done|]. intros ([|x1 l1] & x' & l2 & Heq & Hall & Hx').
        -- simpl in Heq. injection Heq as -> ->. by rewrite Hx in Hx'.
        -- simpl in Heq. injection Heq as -> ->. apply Forall_cons in Hall as [_ Hall].
           assert (Ok k' = Raise e); [|done]. apply IH. by exists l1, x', l2.
      * split.
        -- intros [= ->]. destruct (proj1 IH eq_refl) as (l1 & x' & l2 & -> & Hall & Hx').
           exists (x :: l1), x', l2. split; [done|]. split; [|done].
           constructor; [by eexists | done].
        -- intros ([|x1 l1] & x' & l2 & Heq & Hall & Hx').
           ++ simpl in Heq. injection Heq as -> ->. by rewrite Hx in Hx'.
           ++ simpl in Heq. injection Heq as -> ->.
              apply Forall_cons in Hall as [_ Hall]. apply IH. by exists l1, x', l2.
    + split.
      * intros [= ->]. exists [], x, l. split; [done|]. split; [constructor | done].
      * intros ([|x1 l1] & x' & l2 & Heq & Hall & Hx').
        -- simpl in Heq. injection Heq as -> ->. rewrite Hx in Hx'. by injection Hx' as ->.
        -- simpl in Heq. injection Heq as -> ->. apply Forall_cons in Hall as [[y Hy] _].
           by rewrite Hx in Hy.
Qed.

Lemma Forall2_Ok_exists (l : list A) :
  (∃ k, Forall2 (fun x y => f x = Ok y) l k) ↔ Forall (fun x => ∃ y, f x = Ok y) l.
Proof.
  induction l as [|x l IH].
  - split; [constructor | intros _; exists []; constructor].
  - split.
    + intros [k Hk]. inversion Hk as [|? y ? k' Hy Hk']; subst.
      constructor; [by exists y|]. apply IH. by exists k'.
    + intros Hall. apply Forall_cons in Hall as [[y Hy] Hall].
      apply IH in Hall as [k Hk]. exists (y :: k). by constructor.
Qed.

End map_months.

Lemma months_1_8 (month : Z) :
  1 ≤ month ≤ 8 →
  ∃ l1 l2, seqZ 1 8 = l1 ++ month :: l2 ∧ ∀ m', m' ∈ l1 → 1 ≤ m' < month.
Proof.
  intros Hm.
  assert (Hcases : month = 1 ∨ month = 2 ∨ month = 3 ∨ month = 4 ∨ month = 5
                   ∨ month = 6 ∨ month = 7 ∨ month = 8) by lia.
  exists (seqZ 1 (month - 1)), (seqZ (month + 1) (8 - month)). split.
  - destruct Hcases as [->|[->|[->|[->|[->|[->|[->| ->]]]]]]]; reflexivity.
  - intros m' Hm'. apply elem_of_seqZ in Hm'. lia.
Qed.

(** X14.  [main] returns the percentages of January to August 2023, in
    this order, when every month gives one; the first month that raises
    ends [main] with its exception, and no list of percentages is
    returned, whatever the months before gave. *)
Theorem main_month_by_month (d : database) :
  (∀ l, main d = Ok l ↔
        Forall2 (fun month p => month_percentage d month 2023 = Ok p) (seqZ 1 8) l)
  ∧ (∀ e, main d = Raise e ↔
          ∃ month, 1 ≤ month ≤ 8 ∧ month_percentage d month 2023 = Raise e
                   ∧ ∀ m', 1 ≤ m' < month → ∃ p, month_percentage d m' 2023 = Ok p).
Proof.
  unfold main. split.
  - intros l. apply mapM_Ok.
  - intros e. rewrite mapM_Raise. split.
    + intros (l1 & month & l2 & Heq & Hall & Hraise).
      assert (Hat : seqZ 1 8 !! length l1 = Some month)
        by (rewrite Heq; apply list_lookup_middle; done).
      apply lookup_seqZ in Hat as [Hmonth Hlt].
      exists month. split; [lia|]. split; [done|]. intros m' Hm'.
      rewrite Forall_forall in Hall. apply Hall.
      assert (Hin : seqZ 1 8 !! Z.to_nat (m' - 1) = Some m').
      { apply lookup_seqZ. lia. }
      rewrite Heq, lookup_app_l in Hin by lia. by eapply list_elem_of_lookup_2.
    + intros (month & Hm & Hraise & Hbefore).
      destruct (months_1_8 month Hm) as (l1 & l2 & Heq & Hl1).
      exists l1, month, l2. split; [done|]. split; [|done].
      apply Forall_forall. intros m' Hm'. apply Hbefore. by apply Hl1.
Qed.

Lemma supported_2023 (month : Z) : 1 ≤ month ≤ 8 → supported month 2023.
Proof. intros Hm. unfold supported, MINYEAR, MAXYEAR. lia. Qed.

Lemma month_percentage_returns (d : database) (month : Z) :
  1 ≤ month ≤ 8 →
  (∃ p, month_percentage d month 2023 = Ok p) ↔
  (∀ c, c ∈ company_table d → ¬ in_window month c)
  ∨ (∃ c i, c ∈ company_table d ∧ in_window month c
            ∧ i ∈ company_identifiers d ∧ ci_company_id i = id c).
Proof.
  intros Hm. unfold month_percentage, get_recently_closed_companies.
  rewrite (date_range_supported _ _ (supported_2023 _ Hm)), !bind_Ok.
  set (closed := filter (between (two_month_range month 2023).1
                           (two_month_range month 2023).2) (company_table d)).
  set (ids := ((fun c => (id c, name c)) <$> closed).*1).
  assert (Hids : ∀ k, k ∈ ids ↔ ∃ c, c ∈ company_table d ∧ in_window month c ∧ k = id c).
  { intros k. unfold ids. rewrite <- list_fmap_compose, list_elem_of_fmap. split.
    - intros (c & -> & Hc). apply list_elem_of_filter in Hc as [? ?]. by exists c.
    - intros (c & Hc & Hw & ->). exists c. split; [done|]. by apply list_elem_of_filter. }
  transitivity (∃ result,
    get_successful_conversations_for_companies d ids month 2023 = Ok result).
  { destruct (get_successful_conversations_for_companies d ids month 2023) as [r|e];
      simpl; split; intros [? ?]; try done; by eexists. }
  rewrite (proj1 (get_successful_conversations_cases d ids month 2023)). split.
  - intros [Hnil|(i & Hi & Hin)].
    + left. intros c Hc Hw. assert (Hk : id c ∈ ids) by (apply Hids; by exists c).
      rewrite Hnil in Hk. by apply elem_of_nil in Hk.
    + right. apply Hids in Hin as (c & Hc & Hw & Hk). by exists c, i.
  - intros [Hnone|(c & i & Hc & Hw & Hi & Hk)].
    + left. apply elem_of_nil_inv. intros k Hk.
      apply Hids in Hk as (c & Hc & Hw & _). by apply (Hnone c).
    + right. exists i. split; [done|]. apply Hids. by exists c.
Qed.

(** X15.  [main] runs through to its list of percentages exactly when
    each of the months January to August 2023 either selects no company
    at all, or selects at least one company that has a row in
    [company_identifiers]; a month whose selected companies all lack such
    a row stops the run. *)
Theorem main_runs_through (d : database) :
  (∃ l, main d = Ok l) ↔
  ∀ month, 1 ≤ month ≤ 8 →
    (∀ c, c ∈ company_table d → ¬ in_window month c)
    ∨ (∃ c i, c ∈ company_table d ∧ in_window month c
              ∧ i ∈ company_identifiers d ∧ ci_company_id i = id c).
Proof.
  unfold main.
  transitivity (∃ l, Forall2 (fun month p => month_percentage d month 2023 = Ok p)
                       (seqZ 1 8) l).
  { split; intros [l Hl]; exists l; by apply mapM_Ok. }
  rewrite Forall2_Ok_exists, Forall_forall. split.
  - intros Hall month Hm. apply month_percentage_returns; [done|].
    apply Hall, elem_of_seqZ. lia.
  - intros Hall month Hm. apply elem_of_seqZ in Hm.
    apply month_percentage_returns; [lia|]. apply Hall. lia.
Qed.

End Script2_outcomes.

(** ** 3_script.py: the live frame of a cohort *)

Module Script3_frames.
Import Calendar Script3 Script3_helpers Script3_cohorts.

Lemma filter_fmap_comm {A B} (f : A → B) (P : B → Prop) `{∀ y, Decision (P y)}
    (l : list A) :
  filter P (f <$> l) = f <$> filter (fun x => P (f x)) l.
Proof.
  induction l as [|x l IH]; [done|]. rewrite fmap_cons.
  destruct (decide (P (f x))).
  - rewrite !filter_cons_True by done. by rewrite fmap_cons, IH.
  - rewrite !filter_cons_False by done. done.
Qed.

Lemma sumZ_zeros {A} (l : list A) : sumZ ((fun _ => 0) <$> l) = 0.
Proof. induction l as [|x l IH]; [done|]. rewrite fmap_cons. simpl. by rewrite IH. Qed.

Lemma sumZ_plus {A} (f g : A → Z) (l : list A) :
  sumZ ((fun k => f k + g k) <$> l) = sumZ (f <$> l) + sumZ (g <$> l).
Proof.
  induction l as [|x l IH]; [done|]. rewrite !fmap_cons, !sumZ_cons, IH. lia.
Qed.

Lemma sumZ_indicator {K} `{EqDecision K} (k0 : K) (c : Z) (l : list K) :
  NoDup l →
  sumZ ((fun k => if decide (k0 = k) then c else 0) <$> l)
  = if decide (k0 ∈ l) then c else 0.
Proof.
  induction 1 as [|k l Hnotin Hnd IH]; [done|].
  rewrite fmap_cons, sumZ_cons, IH.
  destruct (decide (k0 = k)) as [->|Hne].
  - rewrite decide_False by done. rewrite decide_True by left. lia.
  - destruct (decide (k0 ∈ l)) as [Hin|Hin].
    + rewrite decide_True by (by right). lia.
    + rewrite decide_False; [lia|]. rewrite not_elem_of_cons. done.
Qed.

(** Summing group by group, over the groups that pass a test, adds up
    the rows whose group passes it. *)
Lemma group_sum {X K} `{EqDecision K} (key : X → K) (w : X → Z)
    (P : K → Prop) `{∀ k, Decision (P k)} (ks : list K) (J : list X) :
  NoDup ks → (∀ x, x ∈ J → key x ∈ ks) →
  sumZ ((fun k => sumZ (w <$> filter (fun x => key x = k) J)) <$> filter P ks)
  = sumZ (w <$> filter (fun x => P (key x)) J).
Proof.
  intros Hnd. induction J as [|x J IH]; intros Hks.
  - apply sumZ_zeros.
  - assert (Hstep : ∀ k, sumZ (w <$> filter (fun x => key x = k) (x :: J))
                         = (if decide (key x = k) then w x else 0)
                           + sumZ (w <$> filter (fun x => key x = k) J)).
    { intros k. case_decide.
      - rewrite filter_cons_True by done. by rewrite fmap_cons, sumZ_cons.
      - rewrite filter_cons_False by done. lia. }
    rewrite (list_fmap_ext _ _ _ (fun _ k _ => Hstep k)).
    rewrite sumZ_plus, IH by (intros y Hy; apply Hks; by right).
    rewrite sumZ_indicator by (by apply NoDup_filter).
    destruct (decide (P (key x))) as [HP|HP].
    + rewrite filter_cons_True by done. rewrite fmap_cons, sumZ_cons.
      rewrite decide_True; [done|]. apply list_elem_of_filter. split; [done|].
      apply Hks. left.
    + rewrite filter_cons_False by done.
      rewrite decide_False; [lia|]. intros Hin.
      apply list_elem_of_filter in Hin as [? _]. done.
Qed.

Lemma filter_eq_NoDup (x : Z) (ids : list Z) :
  NoDup ids → x ∈ ids → filter (fun s => s = x) ids = [x].
Proof.
  induction 1 as [|s ids Hnotin Hnd IH]; intros Hin; [by apply elem_of_nil in Hin|].
  destruct (decide (s = x)) as [->|Hne].
  - rewrite filter_cons_True by done. f_equal.
    apply elem_of_nil_inv. intros s' Hs'.
    apply list_elem_of_filter in Hs' as [-> Hs']. by apply Hnotin.
  - rewrite filter_cons_False by done.
    apply elem_of_cons in Hin as [?|Hin]; [congruence|]. by apply IH.
Qed.

Lemma filter_replicate_True {A} (P : A → Prop) `{∀ x, Decision (P x)} (n : nat) (x : A) :
  P x → filter P (replicate n x) = replicate n x.
Proof.
  intros HP. induction n as [|n IH]; [done|].
  rewrite replicate_S, filter_cons_True by done. by rewrite IH.
Qed.

Lemma filter_replicate_False {A} (P : A → Prop) `{∀ x, Decision (P x)} (n : nat) (x : A) :
  ¬ P x → filter P (replicate n x) = [].
Proof.
  intros HP. induction n as [|n IH]; [done|].
  rewrite replicate_S, filter_cons_False by done. done.
Qed.

Lemma sumZ_replicate (n : nat) (v : Z) : sumZ (replicate n v) = Z.of_nat n * v.
Proof.
  induction n as [|n IH]; [done|].
  rewrite replicate_S, sumZ_cons, IH. lia.
Qed.

Lemma sumZ_app (l k : list Z) : sumZ (l ++ k) = sumZ l + sumZ k.
Proof.
  induction l as [|x l IH]; [done|].
  rewrite <- app_comm_cons, !sumZ_cons, IH. lia.
Qed.

Lemma StronglySorted_le_lt (l : list Z) :
  StronglySorted Z.le l → NoDup l → StronglySorted Z.lt l.
Proof.
  induction 1 as [|x l Hl IH Hall]; intros Hnd; [constructor|].
  apply NoDup_cons in Hnd as [Hnotin Hnd]. constructor; [by apply IH|].
  rewrite Forall_forall in *. intros y Hy. specialize (Hall _ Hy).
  assert (x ≠ y) by (by intros ->). lia.
Qed.

Section cohort.
Variables (d : database) (month : Z).

Lemma joined_invoices_copies :
  joined_invoices d month
  = si ← stripe_invoices d;
    if decide (sent_in month si) then replicate (copies d month si) si else [].
Proof.
  unfold joined_invoices, copies. apply list_bind_ext; [|done]. intros si.
  induction (StripeIdsForCompaniesClosedInMonth d month) as [|scim ids IH].
  - by case_decide.
  - rewrite bind_cons, IH.
    destruct (decide (sent_in month si)) as [Hs|Hs].
    + destruct (decide (scim = si_company_id si)) as [->|Hne].
      * rewrite filter_cons_True by done. rewrite decide_True by done. done.
      * rewrite filter_cons_False by done.
        rewrite decide_False by (intros [? _]; done). done.
    + rewrite decide_False by (intros [_ ?]; done). done.
Qed.

Lemma elem_of_joined_invoices_iff (si : stripe_invoice) :
  si ∈ joined_invoices d month ↔
  si ∈ stripe_invoices d
  ∧ si_company_id si ∈ StripeIdsForCompaniesClosedInMonth d month
  ∧ sent_in month si.
Proof.
  unfold joined_invoices. rewrite list_elem_of_bind. split.
  - intros (si' & Hin & Hsi'). apply list_elem_of_bind in Hin as (scim & Hin & Hscim).
    case_decide as Hd; [|by apply elem_of_nil in Hin].
    apply list_elem_of_singleton in Hin as ->. destruct Hd as [-> ?]. done.
  - intros (Hsi & Hid & Hsent). exists si. split; [|done].
    apply list_elem_of_bind. exists (si_company_id si). split; [|done].
    rewrite decide_True by done. left.
Qed.

Lemma joined_invoices_once :
  NoDup (StripeIdsForCompaniesClosedInMonth d month) →
  joined_invoices d month
  = filter (fun si => si_company_id si ∈ StripeIdsForCompaniesClosedInMonth d month
                      ∧ sent_in month si) (stripe_invoices d).
Proof.
  intros Hnd. rewrite joined_invoices_copies. unfold copies.
  induction (stripe_invoices d) as [|si l IH]; [done|].
  rewrite bind_cons, IH.
  destruct (decide (sent_in month si)) as [Hs|Hs].
  - destruct (decide (si_company_id si ∈ StripeIdsForCompaniesClosedInMonth d month))
      as [Hin|Hin].
    + rewrite filter_cons_True by done.
      rewrite (filter_eq_NoDup _ _ Hnd Hin). done.
    + rewrite filter_cons_False by (intros [? _]; done).
      assert (Hnone : filter (fun scim => scim = si_company_id si)
                        (StripeIdsForCompaniesClosedInMonth d month) = []).
      { apply elem_of_nil_inv. intros s' Hs'.
        apply list_elem_of_filter in Hs' as [Heq Hs']. subst s'. by apply Hin. }
      rewrite Hnone. done.
  - rewrite filter_cons_False by (intros [_ ?]; done). done.
Qed.

(** The months of the rows of the first grouping. *)
Lemma invoice_rows_months (m : Z) :
  m ∈ (fun r : Z * Z * Z => r.1.2) <$> InvoicesForCompaniesClosedInMonth d month
  ↔ ∃ si, si ∈ joined_invoices d month ∧ Calendar.month (sent_date si) = m.
Proof.
  unfold InvoicesForCompaniesClosedInMonth. cbv zeta.
  rewrite <- list_fmap_compose, list_elem_of_fmap. split.
  - intros ([cid m'] & -> & Hk).
    apply elem_of_remove_dups, list_elem_of_fmap in Hk as (si & [= -> ->] & Hsi).
    by exists si.
  - intros (si & Hsi & <-). exists (si_company_id si, Calendar.month (sent_date si)).
    split; [done|]. apply elem_of_remove_dups, list_elem_of_fmap. by exists si.
Qed.

Lemma fetch_monthly_data_months :
  invoice_month <$> fetch_monthly_data d month
  = merge_sort Z.le
      (remove_dups ((fun r : Z * Z * Z => r.1.2)
                    <$> InvoicesForCompaniesClosedInMonth d month)).
Proof.
  unfold fetch_monthly_data. cbv zeta. rewrite <- list_fmap_compose.
  etransitivity; [|apply list_fmap_id]. by apply list_fmap_ext.
Qed.

(** The revenue of a month, from the rows that were joined. *)
Lemma revenue_of_month (m : Z) :
  sumZ (snd <$> filter (fun r : Z * Z * Z => r.1.2 = m)
                  (InvoicesForCompaniesClosedInMonth d month))
  = sumZ (amount <$> filter (fun si => Calendar.month (sent_date si) = m)
                       (joined_invoices d month)).
Proof.
  unfold InvoicesForCompaniesClosedInMonth. cbv zeta.
  rewrite filter_fmap_comm, <- list_fmap_compose.
  etransitivity;
    [|exact (group_sum invoice_key amount (fun k : Z * Z => k.2 = m)
               (remove_dups (invoice_key <$> joined_invoices d month))
               (joined_invoices d month) (NoDup_remove_dups _)
               (fun si Hsi => proj2 (elem_of_remove_dups _ _)
                                (list_elem_of_fmap_2 invoice_key _ si Hsi)))].
  f_equal. apply list_fmap_ext. intros _ k _. simpl. f_equal. f_equal.
  apply list_filter_iff. intros si. unfold invoice_key. destruct k as [c m']. simpl.
  split; [intros [-> ->]; done | intros [= -> ->]; done].
Qed.

Lemma fetch_monthly_data_months_iff (m : Z) :
  m ∈ invoice_month <$> fetch_monthly_data d month
  ↔ ∃ si, si ∈ joined_invoices d month ∧ Calendar.month (sent_date si) = m.
Proof.
  rewrite fetch_monthly_data_months, merge_sort_Permutation, elem_of_remove_dups.
  apply invoice_rows_months.
Qed.

Lemma fetch_monthly_data_row (row : cohort_row) :
  row ∈ fetch_monthly_data d month ↔
  row = mk_cohort_row month (invoice_month row)
          (Some (sumZ (amount <$> filter (fun si => Calendar.month (sent_date si)
                                                   = invoice_month row)
                                    (joined_invoices d month))))
  ∧ ∃ si, si ∈ joined_invoices d month
          ∧ Calendar.month (sent_date si) = invoice_month row.
Proof.
  split.
  - intros Hrow. split.
    + unfold fetch_monthly_data in Hrow. cbv zeta in Hrow.
      apply list_elem_of_fmap in Hrow as (m & -> & _).
      cbn [invoice_month]. by rewrite revenue_of_month.
    + apply fetch_monthly_data_months_iff. by apply list_elem_of_fmap_2.
  - intros [Hrow Hsi]. apply fetch_monthly_data_months_iff in Hsi.
    apply list_elem_of_fmap in Hsi as (row' & Hm & Hrow').
    assert (Hrow'' := Hrow').
    unfold fetch_monthly_data in Hrow''. cbv zeta in Hrow''.
    apply list_elem_of_fmap in Hrow'' as (m & Heq & _).
    rewrite revenue_of_month in Heq.
    assert (invoice_month row' = m) as Hm' by (by rewrite Heq).
    rewrite Hrow, Hm, Hm', <- Heq. done.
Qed.

Lemma elem_of_StripeIds (s : Z) :
  s ∈ StripeIdsForCompaniesClosedInMonth d month ↔
  ∃ c i, c ∈ company_table d ∧ closed_in month c
         ∧ i ∈ company_identifiers d ∧ ci_company_id i = id c
         ∧ stripe_company_ids i = s.
Proof.
  unfold StripeIdsForCompaniesClosedInMonth, CompaniesClosedInMonth.
  rewrite list_elem_of_fmap. split.
  - intros (i & -> & Hi). apply list_elem_of_filter in Hi as [Hc Hi].
    apply list_elem_of_fmap in Hc as (c & Hid & Hc).
    apply list_elem_of_filter in Hc as [Hclosed Hc]. by exists c, i.
  - intros (c & i & Hc & Hclosed & Hi & Hid & <-). exists i. split; [done|].
    apply list_elem_of_filter. split; [|done].
    apply list_elem_of_fmap. exists c. split; [done|].
    by apply list_elem_of_filter.
Qed.

Lemma invoiced_joined (m : Z) :
  (∃ si, si ∈ joined_invoices d month ∧ Calendar.month (sent_date si) = m)
  ↔ month ≤ m ≤ 8 ∧ invoiced d month m.
Proof.
  split.
  - intros (si & Hsi & Hm).
    apply elem_of_joined_invoices_iff in Hsi as (Hsi & Hid & Hy & Hrange).
    apply elem_of_StripeIds in Hid as (c & i & Hc & Hclosed & Hi & Hid & Hs).
    split; [by rewrite <- Hm|]. by exists c, i, si.
  - intros [Hrange (c & i & si & Hc & Hclosed & Hi & Hid & Hsi & Hs & Hy & Hm)].
    exists si. split; [|done]. apply elem_of_joined_invoices_iff.
    split; [done|]. split.
    + apply elem_of_StripeIds. by exists c, i.
    + split; [done|]. by rewrite Hm.
Qed.

Lemma revenue_by_copies (m : Z) (l : list stripe_invoice) :
  sumZ (amount
        <$> filter (fun si => Calendar.month (sent_date si) = m)
              (si ← l;
               if decide (sent_in month si)
               then replicate (copies d month si) si else []))
  = sumZ ((fun si => Z.of_nat (copies d month si) * amount si)
          <$> filter (fun si => sent_in month si ∧ Calendar.month (sent_date si) = m) l).
Proof.
  induction l as [|si l IH]; [done|].
  rewrite bind_cons, filter_app, fmap_app, sumZ_app, IH.
  destruct (decide (sent_in month si)) as [Hs|Hs].
  - destruct (decide (Calendar.month (sent_date si) = m)) as [Hm|Hm].
    + rewrite (filter_cons_True _ si l) by done.
      rewrite fmap_cons, sumZ_cons. f_equal.
      rewrite filter_replicate_True by done.
      by rewrite fmap_replicate, sumZ_replicate.
    + rewrite (filter_cons_False _ si l) by (intros [_ ?]; done).
      rewrite filter_replicate_False by done. done.
  - rewrite (filter_cons_False _ si l) by (intros [? _]; done). done.
Qed.

Lemma fetch_monthly_data_sorted :
  StronglySorted Z.lt (invoice_month <$> fetch_monthly_data d month).
Proof.
  rewrite fetch_monthly_data_months. apply StronglySorted_le_lt.
  - apply StronglySorted_merge_sort; apply _.
  - rewrite merge_sort_Permutation. apply NoDup_remove_dups.
Qed.

Lemma fetch_monthly_data_keys_sorted :
  StronglySorted key_lt (frame_key <$> fetch_monthly_data d month).
Proof.
  pose proof fetch_monthly_data_sorted as Hs. rewrite fetch_monthly_data_months in Hs.
  unfold fetch_monthly_data. cbv zeta. rewrite <- list_fmap_compose.
  apply (StronglySorted_fmap _ Z.lt key_lt); [|done].
  intros m1 m2 Hlt. right. simpl. done.
Qed.

(** X17.  The live frame of a cohort has a row for an invoice month
    exactly when that month lies between the cohort's month and 8 and
    some company closed in the cohort's month of 2023 has, through an
    identifier row, an invoice sent in that month of 2023; the row's
    revenue is the sum of the amounts of the joined invoices of the
    month.  A month without such an invoice has no row (not a row with
    revenue 0), and every row has a revenue. *)
Theorem live_frame_rows (row : cohort_row) :
  row ∈ fetch_monthly_data d month ↔
  cohort row = month
  ∧ month ≤ invoice_month row ≤ 8
  ∧ invoiced d month (invoice_month row)
  ∧ revenue row
    = Some (sumZ (amount <$> filter (fun si => Calendar.month (sent_date si)
                                             = invoice_month row)
                              (joined_invoices d month))).
Proof.
  rewrite fetch_monthly_data_row, invoiced_joined. split.
  - intros [Hrow [Hrange Hinv]]. rewrite Hrow at 1 5. done.
  - intros (Hc & Hrange & Hinv & Hrev). split; [|done].
    destruct row as [c m r]. simpl in *. by subst.
Qed.

(** X18.  The revenue of a row of the live frame adds up the amounts of
    the invoices of [stripe_invoice] sent in the row's month of 2023,
    each as many times as the identifier rows of the cohort carry its
    company id: an id that two identifier rows share counts its
    invoices twice.  When the cohort's ids are pairwise distinct the
    revenue is the plain sum over the invoices of the cohort's ids. *)
Theorem revenue_counts_identifier_rows (row : cohort_row) :
  row ∈ fetch_monthly_data d month →
  revenue row
  = Some (sumZ ((fun si => Z.of_nat (copies d month si) * amount si)
                <$> filter (fun si => sent_in month si
                                      ∧ Calendar.month (sent_date si) = invoice_month row)
                      (stripe_invoices d)))
  ∧ (NoDup (StripeIdsForCompaniesClosedInMonth d month) →
     revenue row
     = Some (sumZ (amount
                   <$> filter (fun si => Calendar.month (sent_date si) = invoice_month row)
                         (filter (fun si =>
                                    si_company_id si
                                    ∈ StripeIdsForCompaniesClosedInMonth d month
                                    ∧ sent_in month si) (stripe_invoices d))))).
Proof.
  intros Hrow. apply fetch_monthly_data_row in Hrow as [Hrow _]. split.
  - rewrite Hrow at 1. cbn [revenue]. f_equal.
    rewrite joined_invoices_copies. apply revenue_by_copies.
  - intros Hnd. rewrite Hrow at 1. cbn [revenue]. by rewrite joined_invoices_once.
Qed.

End cohort.

Lemma frame_keys_sorted (d : database) (ms : list Z) :
  StronglySorted Z.lt ms →
  StronglySorted key_lt (frame_key <$> (ms ≫= fetch_monthly_data d)).
Proof.
  induction 1 as [|m ms Hms IH Hall]; [constructor|].
  rewrite bind_cons, fmap_app. apply StronglySorted_app_2.
  - intros k1 k2 Hk1 Hk2.
    apply list_elem_of_fmap in Hk1 as (r1 & -> & Hr1).
    apply list_elem_of_fmap in Hk2 as (r2 & -> & Hr2).
    apply list_elem_of_bind in Hr2 as (m' & Hr2 & Hm').
    apply elem_of_fetch_monthly_data in Hr1 as (Hc1 & _).
    apply elem_of_fetch_monthly_data in Hr2 as (Hc2 & _).
    rewrite Forall_forall in Hall. specialize (Hall _ Hm').
    left. unfold frame_key. simpl. lia.
  - apply fetch_monthly_data_keys_sorted.
  - done.
Qed.

(** X16.  Each live frame comes in strictly increasing invoice month,
    and the frame that [main] concatenates from the cohorts of January
    to August comes in strictly increasing (cohort, invoice month): no
    cell of the cohort table is filled by two rows. *)
Theorem live_frames_in_order (d : database) :
  (∀ month, StronglySorted Z.lt (invoice_month <$> fetch_monthly_data d month))
  ∧ StronglySorted key_lt (frame_key <$> final_dataframe d)
  ∧ NoDup (frame_key <$> final_dataframe d).
Proof.
  assert (Hs : StronglySorted key_lt (frame_key <$> final_dataframe d)).
  { unfold final_dataframe. apply (frame_keys_sorted d (seqZ 1 8)).
    change (seqZ 1 8) with [1; 2; 3; 4; 5; 6; 7; 8].
    repeat (constructor; [|repeat (constructor; [lia|]); constructor]). constructor. }
  split; [intros month; apply fetch_monthly_data_sorted|]. split; [done|].
  revert Hs. generalize (frame_key <$> final_dataframe d).
  induction 1 as [|k ks Hks IH Hall]; constructor; [|done].
  intros Hin. rewrite Forall_forall in Hall. specialize (Hall _ Hin).
  unfold key_lt in Hall. lia.
Qed.

End Script3_frames.

(** ** Further examples on concrete databases *)

Module MoreExamples.
Import Fixtures MoreFixtures.

Lemma activation_date_own_rows_witness :
  Script1.activation_date boundary_row
  = Script1.activation_date (Script1.mk_company_row 1 "z" (Some 12)).
Proof.
  apply (Script1_frames.activation_date_own_rows boundary_db reflagged_db
           boundary_row (Script1.mk_company_row 1 "z" (Some 12)));
    [reflexivity | vm_compute; left | vm_compute; left | reflexivity].
Defined.

Lemma success_frame_returned_iff_witness :
  ((∃ results,
      Script1.fetch_successful_conversations season_df season_convs = Some results)
   ↔ (1 ≤ length season_df ≤ 4)%nat
     ∧ Forall (fun row => is_Some (Script1.activation_date row)) season_df)
  ∧ (Script1.fetch_successful_conversations season_df season_convs = None
     ↔ ¬ ((1 ≤ length season_df ≤ 4)%nat
          ∧ Forall (fun row => is_Some (Script1.activation_date row)) season_df)).
Proof.
  apply (Script1_frames.success_frame_returned_iff season_convs season_df).
  repeat (constructor;
          [intros act [= <-];
           unfold Script1.safe_activation, Script1.FIRST_DAY, Script1.LAST_DAY; lia|]).
  constructor.
Defined.

Lemma main_reaches_df_2023_witness :
  ((∃ df, Script1_main.main season_db = Script1_main.Reached df)
   ↔ (1 ≤ length (filter Script1.partnered (Script1.company_table season_db)) ≤ 4)%nat
     ∧ ∀ c, c ∈ Script1.company_table season_db → Script1.partnered c →
            Script1_main.activated season_db c)
  ∧ (Script1_main.main season_db = Script1_main.TypeError
     ↔ ¬ ((1 ≤ length (filter Script1.partnered (Script1.company_table season_db)) ≤ 4)%nat
          ∧ ∀ c, c ∈ Script1.company_table season_db → Script1.partnered c →
                 Script1_main.activated season_db c)).
Proof.
  apply (Script1_frames.main_reaches_df_2023 season_db).
  repeat (constructor;
          [unfold Script1.safe_activation, Script1.FIRST_DAY, Script1.LAST_DAY;
           simpl; lia|]).
  constructor.
Defined.

Lemma success_frame_in_batch_order_witness :
  length success_results = length success_df
  ∧ Script1.sr_company_id <$> success_results = Script1.company_id <$> success_df.
Proof.
  apply (Script1_frames.success_frame_in_batch_order success_convs success_df
           success_results). by vm_compute.
Defined.

Lemma reported_cum_total_witness :
  Script1.fetch_successful_conversations late_df late_convs = Some late_results
  ∧ Script1.cum_total (Script1.mk_success_row (Some 20) (Some 1000) 1)
    = (if decide (500 ≤ Script1.cumulative late_convs 1 10 (10 + 60))
       then Some (Script1.cumulative late_convs 1 10 (10 + 60)) else None)
  ∧ (is_Some (Script1.success_date (Script1.mk_success_row (Some 20) (Some 1000) 1))
     ↔ 500 ≤ Script1.cumulative late_convs 1 10 (10 + 60)).
Proof.
  split; [by vm_compute|].
  apply (Script1_frames.reported_cum_total late_convs late_df late_results 0
           (Script1.mk_company_row 1 "a" (Some 10))
           (Script1.mk_success_row (Some 20) (Some 1000) 1) 10);
    [Examples1.counts | by vm_compute | reflexivity | reflexivity | reflexivity].
Defined.

Lemma determine_successful_companies_on_frame_witness :
  Script1.determine_successful_companies success_results
  = filter (fun r => is_Some (Script1.success_date r)) success_results.
Proof.
  apply (Script1_frames.determine_successful_companies_on_frame success_convs
           success_df success_results). by vm_compute.
Defined.

Lemma april_dictionary :
  Script2.get_successful_conversations_for_companies april_db [3; 11] 4 2023
  = Ok april_result.
Proof. by vm_compute. Qed.

Lemma dictionary_keys_witness :
  3 ∈ dom april_result ↔
  3 ∈ [3; 11]
  ∧ ∃ i r, i ∈ Script2.company_identifiers april_db ∧ Script2.ci_company_id i = 3
           ∧ r ∈ Script2.conversations april_db
           ∧ Script2.account_id r = Script2.account_identifier i
           ∧ Script2.successful r = true
           ∧ Calendar.month (Script2.date r) = 4 ∧ Calendar.year (Script2.date r) = 2023.
Proof.
  apply (Script2_outcomes.dictionary_keys april_db [3; 11] 4 2023 april_result 3).
  exact april_dictionary.
Defined.

Lemma dictionary_values_witness :
  ∃ i, i ∈ Script2.company_identifiers april_db ∧ Script2.ci_company_id i = 3
       ∧ 3 ∈ [3; 11]
       ∧ 310 = Script2_helpers.monthly_total (Script2.conversations april_db)
                 (Script2.account_identifier i) 4 2023
               + Script2.bonus_of 4 3.
Proof.
  apply (Script2_outcomes.dictionary_values april_db [3; 11] 4 2023 april_result 3 310).
  - exact april_dictionary.
  - by vm_compute.
Defined.

Lemma last_matched_account_wins_witness :
  april_result !! 3
  = Some (Script2_helpers.monthly_total (Script2.conversations april_db) 31 4 2023
          + Script2.bonus_of 4 3).
Proof.
  apply (Script2_outcomes.last_matched_account_wins april_db [3; 11] 4 2023
           april_result [Script2.mk_identifier 3 30]
           [Script2.mk_identifier 3 32; Script2.mk_identifier 11 110]
           (Script2.mk_identifier 3 31)).
  - exact april_dictionary.
  - reflexivity.
  - exists (Script2.mk_conversation 31 (Calendar.mk_datetime 2023 4 3) 50 true).
    split; [|done]. right. right. left.
  - intros i' Hi' Hid (r & Hr & Ha & Hs & Hm & Hy).
    apply elem_of_cons in Hi' as [->|Hi'].
    + simpl in Ha.
      repeat (apply elem_of_cons in Hr as [->|Hr]; [done|]).
      by apply elem_of_nil in Hr.
    + apply list_elem_of_singleton in Hi' as ->. done.
Defined.

Lemma revenue_counts_identifier_rows_witness :
  Script3.revenue (Script3.mk_cohort_row 3 5 (Some 120))
  = Some (sumZ ((fun si => Z.of_nat (Script3_helpers.copies shared_db 3 si)
                           * Script3.amount si)
                <$> filter (fun si => Script3.sent_in 3 si
                                      ∧ Calendar.month (Script3.sent_date si) = 5)
                      (Script3.stripe_invoices shared_db)))
  ∧ (NoDup (Script3.StripeIdsForCompaniesClosedInMonth shared_db 3) →
     Script3.revenue (Script3.mk_cohort_row 3 5 (Some 120))
     = Some (sumZ (Script3.amount
                   <$> filter (fun si => Calendar.month (Script3.sent_date si) = 5)
                         (filter (fun si =>
                                    Script3.si_company_id si
                                    ∈ Script3.StripeIdsForCompaniesClosedInMonth shared_db 3
                                    ∧ Script3.sent_in 3 si)
                            (Script3.stripe_invoices shared_db))))).
Proof.
  apply (Script3_frames.revenue_counts_identifier_rows shared_db 3
           (Script3.mk_cohort_row 3 5 (Some 120))).
  vm_compute. right. left.
Defined.

End MoreExamples.
